(** * Deep-research orchestrator: a shallow embedding and its properties

    The development follows the Python sources

    - [skills/deep-research/scripts/lib/gemini_dr.py]  (module [Gemini])
    - [skills/deep-research/scripts/lib/env.py]        (module [Env])
    - [scripts/lib/keychain.py]                        (module [Keychain])
    - [skills/deep-research/scripts/deep_research.py]  (module [DeepResearch])

    Python values are dynamically typed, so the data that comes out of JSON
    documents is kept in one universal value type; exceptions are explicit
    results; the network, the clock and the thread pool are inputs. *)

From Stdlib Require Import String Ascii List ZArith Bool Lia PrimFloat.
From Stdlib Require Import Permutation Sorted DecimalString.
From stdpp Require Import base option list gmap strings.

Set Warnings "-register-all".

Local Open Scope string_scope.
Local Open Scope list_scope.

(** ** Python values *)

Module Py.

(** What [json.load] and the HTTP layer hand to the program. *)
Inductive pyval : Type :=
| PNone
| PBool (b : bool)
| PInt (z : Z)
| PFloat (f : float)
| PStr (s : string)
| PList (l : list pyval)
| PDict (d : list (string * pyval)).

(** [bool(v)] *)
Definition truthy (v : pyval) : bool :=
  match v with
  | PNone => false
  | PBool b => b
  | PInt z => negb (Z.eqb z 0)
  | PFloat f => negb (PrimFloat.eqb f PrimFloat.zero)
  | PStr s => negb (String.eqb s "")
  | PList l => match l with [] => false | _ => true end
  | PDict d => match d with [] => false | _ => true end
  end.

(** [type(v).__name__] *)
Definition type_name (v : pyval) : string :=
  match v with
  | PNone => "NoneType"
  | PBool _ => "bool"
  | PInt _ => "int"
  | PFloat _ => "float"
  | PStr _ => "str"
  | PList _ => "list"
  | PDict _ => "dict"
  end.

(** An instance of a subclass of [Exception]: the class name and [str(e)]. *)
Record exc : Type := Exc { exc_type : string; exc_str : string }.

(** A computation either returns or raises. *)
Inductive res (A : Type) : Type :=
| Ret (a : A)
| Raise (e : exc).
Arguments Ret {A} a.
Arguments Raise {A} e.

Definition bind {A B : Type} (m : res A) (k : A -> res B) : res B :=
  match m with
  | Ret a => k a
  | Raise e => Raise e
  end.

Definition is_ret {A : Type} (m : res A) : bool :=
  match m with Ret _ => true | Raise _ => false end.

(** The items of a dict, keys pairwise distinct; lookup by key. *)
Fixpoint items_get (d : list (string * pyval)) (k : string) : option pyval :=
  match d with
  | [] => None
  | (k', v) :: rest => if String.eqb k' k then Some v else items_get rest k
  end.

(** [d.get(k, dflt)] on a dict. *)
Definition dict_get (d : list (string * pyval)) (k : string) (dflt : pyval) : pyval :=
  match items_get d k with
  | Some v => v
  | None => dflt
  end.

(** [v.get(k, dflt)] on an arbitrary value: only dicts have [get]. *)
Definition get (v : pyval) (k : string) (dflt : pyval) : res pyval :=
  match v with
  | PDict d => Ret (dict_get d k dflt)
  | _ => Raise (Exc "AttributeError"
                    ("'" +:+ type_name v +:+ "' object has no attribute 'get'"))
  end.

(** [v == s] for a string literal [s]. *)
Definition eq_str (v : pyval) (s : string) : bool :=
  match v with
  | PStr t => String.eqb t s
  | _ => false
  end.

(** [v in (s1, s2)] for a pair of string literals. *)
Definition in_pair (v : pyval) (s1 s2 : string) : bool :=
  eq_str v s1 || eq_str v s2.

Definition is_dict (v : pyval) : bool :=
  match v with PDict _ => true | _ => false end.
Definition is_str (v : pyval) : bool :=
  match v with PStr _ => true | _ => false end.

(** Decimal rendering of a natural number, as in an f-string. *)
Definition show_nat (n : nat) : string :=
  NilZero.string_of_uint (Nat.to_uint n).

(** *** [repr] of a string

    A character of a [string] stands for one code point below 256. *)

Definition single_quote : ascii := "'"%char.
Definition double_quote : ascii := ascii_of_nat 34.
Definition backslash : ascii := ascii_of_nat 92.

Fixpoint holds (c : ascii) (s : string) : bool :=
  match s with
  | EmptyString => false
  | String d rest => Ascii.eqb d c || holds c rest
  end.

(** [str.isprintable] on such code points: not a control character (below
    32, 127 to 159), not the no-break space (160), not the soft hyphen (173). *)
Definition printable (c : ascii) : bool :=
  let n := nat_of_ascii c in
  Nat.leb 32 n && negb (Nat.leb 127 n && Nat.leb n 160) && negb (Nat.eqb n 173).

Definition hex_digit (n : nat) : ascii :=
  match String.get n "0123456789abcdef" with
  | Some c => c
  | None => "0"%char
  end.

(** One character between the quotes: the quote in use and the backslash
    are escaped, tab, newline and carriage return have their letters, every
    other character that is not printable is written [\xNN]. *)
Definition escape_char (quote c : ascii) : string :=
  if Ascii.eqb c quote || Ascii.eqb c backslash then String backslash (String c "")
  else if Ascii.eqb c (ascii_of_nat 9) then String backslash "t"
  else if Ascii.eqb c (ascii_of_nat 10) then String backslash "n"
  else if Ascii.eqb c (ascii_of_nat 13) then String backslash "r"
  else if printable c then String c ""
  else String backslash
         (String "x" (String (hex_digit (nat_of_ascii c / 16))
                        (String (hex_digit (nat_of_ascii c mod 16)) ""))).

Fixpoint escape (quote : ascii) (s : string) : string :=
  match s with
  | EmptyString => EmptyString
  | String c rest => escape_char quote c +:+ escape quote rest
  end.

(** A string of printable characters without single quote or backslash. *)
Fixpoint plain (s : string) : bool :=
  match s with
  | EmptyString => true
  | String c rest =>
      printable c && negb (Ascii.eqb c single_quote) && negb (Ascii.eqb c backslash)
      && plain rest
  end.

(** [repr(s)]: between single quotes, or between double quotes when the
    string holds a single quote and no double quote. *)
Definition repr_str (s : string) : string :=
  let quote :=
    if holds single_quote s && negb (holds double_quote s)
    then double_quote else single_quote in
  String quote (escape quote s +:+ String quote "").

End Py.

Import Py.

Notation "x <- m ;; k" := (Py.bind m (fun x => k))
  (at level 62, m at next level, right associativity).

(** ** The Gemini provider client ([lib/gemini_dr.py]) *)

Module Gemini.

Definition BASE_URL : string := "https://generativelanguage.googleapis.com/v1beta".
Definition AGENT : string := "deep-research-pro-preview-12-2025".
Definition POLL_INTERVAL : nat := 15.
Definition MAX_POLL_ATTEMPTS : nat := 40.

(** What a run does to the outside world, in order. *)
Inductive event : Type :=
| EvPost (url : string)
| EvGet (url : string)
| EvLog (line : string)
| EvStderr (line : string)
| EvSleep (secs : nat).

Definition is_get (e : event) : bool :=
  match e with EvGet _ => true | _ => false end.
Definition sleep_secs (e : event) : nat :=
  match e with EvSleep n => n | _ => 0 end.

(** Number of status-check calls issued, and seconds spent in [time.sleep]. *)
Definition polls (tr : list event) : nat := length (List.filter is_get tr).
Definition slept (tr : list event) : nat := list_sum (map sleep_secs tr).

(** The remote service, as the client sees it: the reply to the submission
    and the reply to the k-th status check (k counted from 0).  A transport
    failure is a raised [HTTPError].  [cancel_requested] is the deadline
    signal of the caller; no function of the module takes it as an argument. *)
Record net : Type := Net {
  post_reply : res pyval;
  get_reply : nat -> res pyval;
  cancel_requested : bool
}.

(** Computations that talk to the service and leave a trace. *)
Definition io (A : Type) : Type := list event -> res A * list event.

Definition io_ret {A : Type} (a : A) : io A := fun tr => (Ret a, tr).
Definition io_raise {A : Type} (e : exc) : io A := fun tr => (Raise e, tr).
Definition io_lift {A : Type} (r : res A) : io A := fun tr => (r, tr).
Definition io_bind {A B : Type} (m : io A) (k : A -> io B) : io B :=
  fun tr =>
    match m tr with
    | (Ret a, tr') => k a tr'
    | (Raise e, tr') => (Raise e, tr')
    end.
Definition emit (e : event) : io unit := fun tr => (Ret tt, tr ++ [e]).

Notation "x <~ m ;; k" := (io_bind m (fun x => k))
  (at level 62, m at next level, right associativity).

Definition HTTPError (msg : string) : exc := Exc "HTTPError" msg.

(** *** [re.findall(r'https?://[^\s\)>\]]+', report)]

    A character of a [string] stands for one code point below 256. *)

(** [\s] on such code points: tab to carriage return, the four separators
    28 to 31, the space, NEL and the no-break space. *)
Definition is_space (c : ascii) : bool :=
  let n := nat_of_ascii c in
  (Nat.leb 9 n && Nat.leb n 13) || (Nat.leb 28 n && Nat.leb n 32)
  || Nat.eqb n 133 || Nat.eqb n 160.

(** The class [[^\s\)>\]]]. *)
Definition url_char (c : ascii) : bool :=
  negb (is_space c || Ascii.eqb c ")" || Ascii.eqb c ">" || Ascii.eqb c "]").

(** The longest run of class characters at the head of [s] (greedy [+]). *)
Fixpoint url_run (s : string) : string :=
  match s with
  | EmptyString => EmptyString
  | String c rest => if url_char c then String c (url_run rest) else EmptyString
  end.

Fixpoint strip_prefix (p s : string) : option string :=
  match p with
  | EmptyString => Some s
  | String a p' =>
      match s with
      | EmptyString => None
      | String b s' => if Ascii.eqb a b then strip_prefix p' s' else None
      end
  end.

(** [://] followed by a non-empty run, after the scheme [scheme]. *)
Definition match_tail (scheme s : string) : option string :=
  match strip_prefix "://" s with
  | Some body =>
      match url_run body with
      | EmptyString => None
      | run => Some (scheme +:+ "://" +:+ run)
      end
  | None => None
  end.

(** A match of the pattern that starts at the head of [s]: the optional [s]
    is tried first, then left out. *)
Definition match_here (s : string) : option string :=
  match strip_prefix "http" s with
  | Some r =>
      match r with
      | String "s"%char r' =>
          match match_tail "https" r' with
          | Some m => Some m
          | None => match_tail "http" r
          end
      | _ => match_tail "http" r
      end
  | None => None
  end.

(** Scan from left to right; after a match the scan resumes behind it, which
    [skip] counts down. *)
Fixpoint findall_from (skip : nat) (s : string) : list string :=
  match s with
  | EmptyString => []
  | String c rest =>
      match skip with
      | S k => findall_from k rest
      | O =>
          match match_here s with
          | Some m => m :: findall_from (String.length m - 1) rest
          | None => findall_from 0 rest
          end
      end
  end.

Definition findall (s : string) : list string := findall_from 0 s.

(** *** [_extract_report] *)

Fixpoint last_char (s : string) : option ascii :=
  match s with
  | EmptyString => None
  | String c EmptyString => Some c
  | String _ rest => last_char rest
  end.

(** [v[-1]] *)
Definition last_item (v : pyval) : res pyval :=
  match v with
  | PList l =>
      match List.last (map Some l) None with
      | Some x => Ret x
      | None => Raise (Exc "IndexError" "list index out of range")
      end
  | PStr s =>
      match last_char s with
      | Some c => Ret (PStr (String c EmptyString))
      | None => Raise (Exc "IndexError" "string index out of range")
      end
  | PDict _ => Raise (Exc "KeyError" "-1")
  | _ => Raise (Exc "TypeError"
                    ("'" +:+ type_name v +:+ "' object is not subscriptable"))
  end.

(** [d.get("text", d.get("content", ""))] *)
Definition text_or_content (d : pyval) : res pyval :=
  content <- get d "content" (PStr "");;
  get d "text" content.

(** The report text: the last output, else the [result] field. *)
Definition report_of (response : pyval) : res pyval :=
  outputs <- get response "outputs" (PList []);;
  report <- (if truthy outputs then
               last_output <- last_item outputs;;
               if is_dict last_output then text_or_content last_output
               else if is_str last_output then Ret last_output
               else Ret (PStr "")
             else Ret (PStr ""));;
  if negb (truthy report) then
    result <- get response "result" (PDict []);;
    if is_dict result then text_or_content result else Ret report
  else Ret report.

(** One round of [for src in sources]: what is appended to [citations]. *)
Definition append_source (citations : list pyval) (src : pyval) : list pyval :=
  match src with
  | PStr _ => citations ++ [PDict [("url", src)]]
  | PDict d =>
      citations ++ [PDict [("url", dict_get d "url" (dict_get d "uri" (PStr "")));
                           ("title", dict_get d "title" (PStr ""))]]
  | _ => citations
  end.

(** The citations taken from the structured source list. *)
Definition structured_citations (response : pyval) : res (list pyval) :=
  grounding <- get response "groundingMetadata" (PDict []);;
  queries <- get grounding "webSearchQueries" (PList []);;
  sources <- get response "sources" queries;;
  match sources with
  | PList l => Ret (fold_left append_source l [])
  | _ => Ret []
  end.

(** [for url in urls: if url not in seen: seen.add(url); citations.append(...)] *)
Fixpoint dedup_loop (urls : list string) (seen : gset string)
    (citations : list pyval) : list pyval :=
  match urls with
  | [] => citations
  | url :: rest =>
      if decide (url ∈ seen) then dedup_loop rest seen citations
      else dedup_loop rest ({[url]} ∪ seen) (citations ++ [PDict [("url", PStr url)]])
  end.

(** The fallback: literal URLs of the report text. *)
Definition inline_citations (report : pyval) : res (list pyval) :=
  match report with
  | PStr text => Ret (dedup_loop (findall text) ∅ [])
  | _ => Raise (Exc "TypeError"
                    ("expected string or bytes-like object, got '"
                       +:+ type_name report +:+ "'"))
  end.

Definition _extract_report (response : pyval) : res (pyval * list pyval) :=
  report <- report_of response;;
  citations <- structured_citations response;;
  citations <- (if negb (truthy (PList citations)) && truthy report
                then inline_citations report
                else Ret citations);;
  Ret (report, citations).

Definition url_record (u : string) : pyval := PDict [("url", PStr u)].

(** Whether the loop has not met [u] yet. *)
Definition unseen (seen : gset string) (u : string) : bool :=
  negb (bool_decide (u ∈ seen)).

(** The [url] entry of a citation record. *)
Definition citation_url (c : pyval) : option pyval :=
  match c with
  | PDict d => items_get d "url"
  | _ => None
  end.

(** A status that ends the polling loop. *)
Definition terminal (status : pyval) : bool :=
  in_pair status "completed" "COMPLETED" || in_pair status "failed" "FAILED".

(** The claim that a polling function honours the caller's deadline signal:
    when the signal is already set it issues no status check, does not sleep,
    and fails. *)
Definition honours_cancellation (poll : net -> res pyval * list event) : Prop :=
  forall N : net,
    cancel_requested N = true ->
    polls (snd (poll N)) = 0 /\ slept (snd (poll N)) = 0 /\ is_ret (fst (poll N)) = false.

(** The distinct URLs of a list, each at its first occurrence. *)
Fixpoint first_occurrences (urls : list string) : list string :=
  match urls with
  | [] => []
  | url :: rest =>
      url :: List.filter (fun u => negb (String.eqb u url)) (first_occurrences rest)
  end.

(** The position of the first occurrence of [url] in [urls]. *)
Fixpoint index_of (url : string) (urls : list string) : nat :=
  match urls with
  | [] => 0
  | u :: rest => if String.eqb u url then 0 else S (index_of url rest)
  end.

Section Client.

(** [str(v)] of a value that is not a string (its [repr]); the rendering of
    floats and containers is left open. *)
Variable repr : pyval -> string.
Variable N : net.

Definition py_str (v : pyval) : string :=
  match v with
  | PStr s => s
  | _ => repr v
  end.

Definition http_post (url : string) : io pyval :=
  fun tr => (post_reply N, tr ++ [EvPost url]).

Definition http_get (url : string) : io pyval :=
  fun tr => (get_reply N (polls tr), tr ++ [EvGet url]).

Definition _submit_request (api_key topic : string) : io pyval :=
  http_post (BASE_URL +:+ "/interactions").

(** [resp.get("status", resp.get("metadata", {}).get("status", ""))]:
    the default is evaluated first, whether or not it is used. *)
Definition status_of (resp : pyval) : res pyval :=
  metadata <- get resp "metadata" (PDict []);;
  inner <- get metadata "status" (PStr "");;
  get resp "status" inner.

(** The message of a provider-reported failure. *)
Definition failure_message (resp : pyval) : res string :=
  error <- get resp "error" (PDict []);;
  msg <- (if is_dict error then get error "message" (PStr "Unknown error")
          else Ret (PStr (py_str error)));;
  Ret ("Gemini deep research failed: " +:+ py_str msg).

Definition timeout_message : string :=
  "Gemini deep research timed out after "
    +:+ show_nat (MAX_POLL_ATTEMPTS * POLL_INTERVAL) +:+ "s".

(** The body of [for attempt in range(MAX_POLL_ATTEMPTS)] over the attempts
    that remain, and the [raise] after the loop. *)
Fixpoint poll_loop (interaction_id : pyval) (attempts : list nat) : io pyval :=
  match attempts with
  | [] => io_raise (HTTPError timeout_message)
  | attempt :: later =>
      resp <~ http_get (BASE_URL +:+ "/interactions/" +:+ py_str interaction_id);;
      status <~ io_lift (status_of resp);;
      _ <~ emit (EvLog ("Gemini poll " +:+ show_nat (attempt + 1)
                          +:+ ": status=" +:+ py_str status));;
      if in_pair status "completed" "COMPLETED" then io_ret resp
      else if in_pair status "failed" "FAILED" then
        msg <~ io_lift (failure_message resp);;
        io_raise (HTTPError msg)
      else
        _ <~ emit (EvStderr ("  [Gemini] Status: " +:+ py_str status +:+ " (poll "
                               +:+ show_nat (attempt + 1) +:+ ")"));;
        _ <~ emit (EvSleep POLL_INTERVAL);;
        poll_loop interaction_id later
  end.

Definition _poll_response (api_key : string) (interaction_id : pyval) : io pyval :=
  poll_loop interaction_id (seq 0 MAX_POLL_ATTEMPTS).

(** The events of one round that finds a status which is not terminal. *)
Definition pending_round (interaction_id : pyval) (attempt : nat) (status : pyval)
    : list event :=
  [EvGet (BASE_URL +:+ "/interactions/" +:+ py_str interaction_id);
   EvLog ("Gemini poll " +:+ show_nat (attempt + 1) +:+ ": status="
            +:+ py_str status);
   EvStderr ("  [Gemini] Status: " +:+ py_str status +:+ " (poll "
               +:+ show_nat (attempt + 1) +:+ ")");
   EvSleep POLL_INTERVAL].

(** Whether the reply to status check [k] ends the loop: the call or the
    reading of the status raises, or the status is terminal. *)
Definition ends_at (k : nat) : bool :=
  match get_reply N k with
  | Raise _ => true
  | Ret resp =>
      match status_of resp with
      | Raise _ => true
      | Ret status => terminal status
      end
  end.

(** What the loop delivers when the reply to status check [k] ends it. *)
Definition ending_result (k : nat) : res pyval :=
  resp <- get_reply N k;;
  status <- status_of resp;;
  if in_pair status "completed" "COMPLETED" then Ret resp
  else msg <- failure_message resp;; Raise (HTTPError msg).

(** [resp.get("name", resp.get("id", resp.get("interactionId", "")))] *)
Definition interaction_id_of (resp : pyval) : res pyval :=
  by_interaction_id <- get resp "interactionId" (PStr "");;
  by_id <- get resp "id" by_interaction_id;;
  get resp "name" by_id.

Definition research (api_key topic : string) : io (pyval * list pyval * string) :=
  resp <~ _submit_request api_key topic;;
  interaction_id <~ io_lift (interaction_id_of resp);;
  if negb (truthy interaction_id) then
    io_raise (HTTPError "No interaction ID returned from Gemini")
  else
    status <~ io_lift (status_of resp);;
    if in_pair status "completed" "COMPLETED" then
      extracted <~ io_lift (_extract_report resp);;
      io_ret (fst extracted, snd extracted, AGENT)
    else
      completed <~ _poll_response api_key interaction_id;;
      extracted <~ io_lift (_extract_report completed);;
      io_ret (fst extracted, snd extracted, AGENT).

End Client.

End Gemini.

(** ** Credentials ([lib/env.py]) *)

Module Env.

Definition _KEY_NAMES : list string :=
  ["OPENAI_API_KEY"; "PERPLEXITY_API_KEY"; "GEMINI_API_KEY"].

(** [a or b] on optional strings. *)
Definition or_else (a b : option string) : option string :=
  match a with
  | Some s => if String.eqb s "" then b else a
  | None => b
  end.

(** [get_config], from [os.environ] and the loaded key file. *)
Definition get_config (environ central_env : gmap string string)
    : gmap string (option string) :=
  list_to_map
    (map (fun key => (key, or_else (environ !! key) (central_env !! key)))
         _KEY_NAMES).

(** [bool(config.get(key))] *)
Definition configured (config : gmap string (option string)) (key : string) : bool :=
  match config !! key with
  | Some (Some s) => negb (String.eqb s "")
  | _ => false
  end.

Definition get_available_providers (config : gmap string (option string))
    : list string :=
  (if configured config "OPENAI_API_KEY" then ["openai"] else [])
  ++ (if configured config "PERPLEXITY_API_KEY" then ["perplexity"] else [])
  ++ (if configured config "GEMINI_API_KEY" then ["gemini"] else []).

End Env.

(** ** The key file ([scripts/lib/keychain.py]) *)

Module Keychain.

(** [c.isspace()], the set that [str.strip] removes: the same code points as
    the class [\s] of the URL pattern. *)
Definition is_space (c : ascii) : bool := Gemini.is_space c.

Definition double_quote : ascii := ascii_of_nat 34.
Definition single_quote : ascii := "'"%char.

(** [s.lstrip()] *)
Fixpoint lstrip (s : string) : string :=
  match s with
  | EmptyString => EmptyString
  | String c rest => if is_space c then lstrip rest else s
  end.

(** [s.rstrip()] *)
Fixpoint rstrip (s : string) : string :=
  match s with
  | EmptyString => EmptyString
  | String c rest =>
      match rstrip rest with
      | EmptyString => if is_space c then EmptyString else String c EmptyString
      | kept => String c kept
      end
  end.

(** [s.strip()] *)
Definition strip (s : string) : string := rstrip (lstrip s).

(** [s.startswith('#')] *)
Definition is_comment (s : string) : bool :=
  match s with
  | String c _ => Ascii.eqb c "#"
  | EmptyString => false
  end.

(** ['=' in s] *)
Fixpoint has_equals (s : string) : bool :=
  match s with
  | EmptyString => false
  | String c rest => Ascii.eqb c "=" || has_equals rest
  end.

(** [s.partition('=')]: what stands before and behind the first [=]; with
    no [=] in [s], all of [s] and the empty string. *)
Fixpoint partition_equals (s : string) : string * string :=
  match s with
  | EmptyString => (EmptyString, EmptyString)
  | String c rest =>
      if Ascii.eqb c "=" then (EmptyString, rest)
      else let (before, behind) := partition_equals rest in (String c before, behind)
  end.

(** [s[:-1]] *)
Fixpoint drop_last (s : string) : string :=
  match s with
  | EmptyString => EmptyString
  | String _ EmptyString => EmptyString
  | String c rest => String c (drop_last rest)
  end.

(** The value without the pair of quotes around it:
    [value[1:-1]] when [value[0]] is a quote and [value[-1] == value[0]]. *)
Definition unquote (value : string) : string :=
  match value with
  | EmptyString => EmptyString
  | String first rest =>
      if (Ascii.eqb first double_quote || Ascii.eqb first single_quote)
         && match Gemini.last_char value with
            | Some last => Ascii.eqb last first
            | None => false
            end
      then drop_last rest
      else value
  end.

(** One round of [for line in f]: the assignment that the line makes. *)
Definition parse_line (raw : string) : option (string * string) :=
  let line := strip raw in
  if String.eqb line "" || is_comment line then None
  else if has_equals line then
    let (key, value) := partition_equals line in
    let key := strip key in
    let value := unquote (strip value) in
    if negb (String.eqb key "") && negb (String.eqb value "")
    then Some (key, value)
    else None
  else None.

Definition assign (env : gmap string string) (raw : string) : gmap string string :=
  match parse_line raw with
  | Some (key, value) => <[key := value]> env
  | None => env
  end.

(** [load_env_file]: the file is absent, or read line by line. *)
Definition load_env_file (file : option (list string)) : gmap string string :=
  match file with
  | None => ∅
  | Some lines => fold_left assign lines ∅
  end.

(** [get_key(name)] *)
Definition get_key (environ : gmap string string) (file : option (list string))
    (name : string) : option string :=
  Env.or_else (environ !! name) (load_env_file file !! name).

(** [get_keys], for the names given *)
Definition get_keys (environ : gmap string string) (file : option (list string))
    (names : list string) : gmap string (option string) :=
  let file_env := load_env_file file in
  list_to_map
    (map (fun name => (name, Env.or_else (environ !! name) (file_env !! name))) names).

(** A key as the file can hold it: not empty, no space around it, no [=] in
    it, and no [#] in front. *)
Definition key_shaped (key : string) : Prop :=
  key <> "" /\ strip key = key /\ has_equals key = false /\ is_comment key = false.

(** The head of a string, when it has one, is not a space. *)
Definition head_ok (s : string) : Prop :=
  match s with
  | EmptyString => True
  | String c _ => is_space c = false
  end.

(** The last character of a string, when it has one, is not a space. *)
Definition last_ok (s : string) : Prop :=
  match Gemini.last_char s with
  | Some c => is_space c = false
  | None => True
  end.

End Keychain.

(** ** The orchestrator ([deep_research.py]) *)

Module DeepResearch.

(** The record of [lib/render.py], whose fields hold whatever the caller
    passes. *)
Record ProviderResult : Type := MkResult {
  provider : string;
  success : pyval;
  report : pyval;
  citations : pyval;
  model : pyval;
  elapsed_seconds : pyval;
  error : pyval
}.

(** A provider module: its [research] function and its [MODEL] attribute,
    when it has one. *)
Record provider_module : Type := Module_ {
  research : option string -> string -> res (pyval * pyval * pyval);
  MODEL : option pyval
}.

(** Everything outside the script that a run depends on. *)
Record world : Type := World {
  environ : gmap string string;
  central_env : gmap string string;
  (** a file of the fixtures directory: absent, or what [open] and
      [json.load] give *)
  fixtures : string -> option (res pyval);
  (** the two provider modules that sit next to [gemini_dr] *)
  openai_dr : provider_module;
  perplexity_dr : provider_module;
  (** the Gemini service and the rendering of non-string values *)
  gemini_net : Gemini.net;
  repr : pyval -> string;
  (** [round(time.time() - start, 1)] as measured in a provider's run *)
  elapsed : string -> pyval;
  (** the futures that finish, in the order in which they finish, each with
      the time from the start of the collection, in seconds *)
  completions : list (string * Z);
  (** the field defaults of [ProviderResult] *)
  defaults : ProviderResult
}.

Record args : Type := Args {
  topic : option string;
  mock : bool;
  timeout : Z
}.

Definition gemini_dr (w : world) : provider_module :=
  {| research := fun api_key topic =>
       match fst (Gemini.research (repr w) (gemini_net w)
                                  (default "" api_key) topic []) with
       | Ret (rep, cits, agent) => Ret (rep, PList cits, PStr agent)
       | Raise e => Raise e
       end;
     MODEL := None |}.

Definition PROVIDER_MODULES (w : world) : gmap string provider_module :=
  list_to_map [("openai", openai_dr w);
               ("perplexity", perplexity_dr w);
               ("gemini", gemini_dr w)].

Definition PROVIDER_KEY_MAP : gmap string string :=
  list_to_map [("openai", "OPENAI_API_KEY");
               ("perplexity", "PERPLEXITY_API_KEY");
               ("gemini", "GEMINI_API_KEY")].

(** [KeyError(key)] for a string key: [str] of it is [repr(key)]. *)
Definition KeyError (key : string) : exc := Exc "KeyError" (repr_str key).

(** [f"{type(e).__name__}: {e}"] *)
Definition describe (e : exc) : string := exc_type e +:+ ": " +:+ exc_str e.

Definition load_fixture (w : world) (name : string) : res pyval :=
  match fixtures w name with
  | Some document => document
  | None => Ret (PDict [])
  end.

(** A failed result built from the provider and the error alone. *)
Definition failed_result (w : world) (p : string) (msg : string) : ProviderResult :=
  {| provider := p;
     success := PBool false;
     report := report (defaults w);
     citations := citations (defaults w);
     model := model (defaults w);
     elapsed_seconds := elapsed_seconds (defaults w);
     error := PStr msg |}.

(** The body of the [try] of [run_provider] up to the return of the call. *)
Definition call_research (w : world) (p : string) (api_key : option string)
    (topic : string) : res (pyval * pyval * pyval) :=
  match PROVIDER_MODULES w !! p with
  | Some module => research module api_key topic
  | None => Raise (KeyError p)
  end.

Definition run_provider (w : world) (p : string) (api_key : option string)
    (topic : string) : res ProviderResult :=
  match call_research w p api_key topic with
  | Ret (rep, cits, mdl) =>
      Ret {| provider := p;
             success := PBool true;
             report := rep;
             citations := cits;
             model := mdl;
             elapsed_seconds := elapsed w p;
             error := error (defaults w) |}
  | Raise e =>
      match PROVIDER_MODULES w !! p with
      | Some module =>
          Ret {| provider := p;
                 success := PBool false;
                 report := report (defaults w);
                 citations := citations (defaults w);
                 model := default (PStr "unknown") (MODEL module);
                 elapsed_seconds := elapsed w p;
                 error := PStr (describe e) |}
      | None => Raise (KeyError p)
      end
  end.

Definition fixture_map : gmap string string :=
  list_to_map [("openai", "openai_sample.json");
               ("perplexity", "perplexity_sample.json");
               ("gemini", "gemini_sample.json")].

(** One round of the loop of [run_mock]: the result that is appended. *)
Definition mock_result (w : world) (p : string) : res ProviderResult :=
  fixture <- load_fixture w (default "" (fixture_map !! p));;
  if truthy fixture then
    ok <- get fixture "success" (PBool true);;
    rep <- get fixture "report" (PStr "");;
    cits <- get fixture "citations" (PList []);;
    mdl <- get fixture "model" (PStr ("mock-" +:+ p));;
    secs <- get fixture "elapsed_seconds" (PFloat PrimFloat.zero);;
    err <- get fixture "error" PNone;;
    Ret {| provider := p; success := ok; report := rep; citations := cits;
           model := mdl; elapsed_seconds := secs; error := err |}
  else
    Ret (failed_result w p
           ("Fixture not found: " +:+ default "unknown" (fixture_map !! p))).

Fixpoint run_mock_loop (w : world) (providers : list string)
    (results : list ProviderResult) : res (list ProviderResult) :=
  match providers with
  | [] => Ret results
  | p :: rest =>
      r <- mock_result w p;;
      run_mock_loop w rest (results ++ [r])
  end.

Definition run_mock (w : world) (providers : list string) : res (list ProviderResult) :=
  run_mock_loop w providers [].

(** *** The thread pool *)

Definition mem (p : string) (l : list string) : bool := existsb (String.eqb p) l.

(** [as_completed(futures, timeout)]: the futures it yields, in order, and
    the [TimeoutError] that ends the iteration when some are still pending
    at the deadline. *)
Definition as_completed (futures : list string) (done : list (string * Z))
    (timeout : Z) : list string * option exc :=
  let yielded :=
    map fst (List.filter (fun c => mem (fst c) futures && Z.leb (snd c) timeout) done) in
  let pending := List.filter (fun p => negb (mem p yielded)) futures in
  (yielded,
   match pending with
   | [] => None
   | _ => Some (Exc "TimeoutError"
                    (show_nat (length pending) +:+ " (of "
                       +:+ show_nat (length futures) +:+ ") futures unfinished"))
   end).

(** Leaving the [with ThreadPoolExecutor] block joins every worker: the time
    at which the last submitted call finishes, if all of them do. *)
Definition executor_released_at (futures : list string) (done : list (string * Z))
    : option Z :=
  if forallb (fun p => mem p (map fst done)) futures
  then Some (fold_right Z.max 0%Z
               (map snd (List.filter (fun c => mem (fst c) futures) done)))
  else None.

(** [config[PROVIDER_KEY_MAP[provider]]] *)
Definition api_key_of (config : gmap string (option string)) (p : string)
    : res (option string) :=
  match PROVIDER_KEY_MAP !! p with
  | None => Raise (KeyError p)
  | Some key =>
      match config !! key with
      | None => Raise (KeyError key)
      | Some value => Ret value
      end
  end.

(** The dispatch loop: the futures submitted so far, each with its provider
    and the key it was given, and the exception that stops the loop. *)
Fixpoint dispatch (config : gmap string (option string)) (available : list string)
    (futures : list (string * option string))
    : list (string * option string) * option exc :=
  match available with
  | [] => (futures, None)
  | p :: rest =>
      match api_key_of config p with
      | Ret api_key => dispatch config rest (futures ++ [(p, api_key)])
      | Raise e => (futures, Some e)
      end
  end.

(** The body of [for future in as_completed(...)]: the result appended for
    the future of provider [p]. *)
Definition collect_one (w : world) (topic : string)
    (futures : list (string * option string)) (p : string) : ProviderResult :=
  let api_key := mjoin (snd <$> find (fun f => String.eqb (fst f) p) futures) in
  match run_provider w p api_key topic with
  | Ret result => result
  | Raise e => failed_result w p (describe e)
  end.

(** [results.sort(key=lambda r: order.get(r.provider, 99))]; the sort of
    Python lists is stable. *)
Definition order : gmap string nat :=
  list_to_map [("openai", 0); ("perplexity", 1); ("gemini", 2)].

Definition sort_key (r : ProviderResult) : nat :=
  default 99 (order !! provider r).

(** The sort key of a provider name. *)
Definition name_key (p : string) : nat := default 99 (order !! p).

(** The canonical provider names, and the results of the other providers. *)
Definition canonical : list string := ["openai"; "perplexity"; "gemini"].

Definition outside (r : ProviderResult) : bool := negb (mem (provider r) canonical).

(** The results whose sort key is [k], in the order of the list. *)
Definition with_key (k : nat) (l : list ProviderResult) : list ProviderResult :=
  List.filter (fun r => Nat.eqb (sort_key r) k) l.

Fixpoint insert_sorted (x : ProviderResult) (l : list ProviderResult)
    : list ProviderResult :=
  match l with
  | [] => [x]
  | y :: l' =>
      if Nat.leb (sort_key x) (sort_key y) then x :: y :: l'
      else y :: insert_sorted x l'
  end.

Definition sort_results (l : list ProviderResult) : list ProviderResult :=
  fold_right insert_sorted [] l.

(** The result of a run: what [main] hands to the renderer, or the exception
    that ends it; and the providers whose [research] was submitted to the
    pool, the only place where the network is reached. *)
Record run : Type := Run {
  outcome : res (list ProviderResult);
  submitted : list string
}.

Definition SystemExit (code : string) : exc := Exc "SystemExit" code.

(** The live branch of [main]: dispatch, collection, and the end of the
    [with] block, which re-raises what interrupted the block. *)
Definition collect_live (w : world) (topic : string)
    (config : gmap string (option string)) (available : list string)
    (timeout : Z) : res (list ProviderResult) * list string :=
  let (futures, stopped) := dispatch config available [] in
  let names := map fst futures in
  match stopped with
  | Some e => (Raise e, names)
  | None =>
      let (yielded, interrupted) := as_completed names (completions w) timeout in
      let results := map (collect_one w topic futures) yielded in
      match interrupted with
      | Some e => (Raise e, names)
      | None => (Ret results, names)
      end
  end.

(** The key that [main] hands to the call of provider [p]. *)
Definition key_for (w : world) (p : string) : option string :=
  match api_key_of (Env.get_config (environ w) (central_env w)) p with
  | Ret api_key => api_key
  | Raise _ => None
  end.

(** What a result says about the call of its provider: a success with what
    the call returned, or a failure with the type name and the message of
    the exception that the call raised. *)
Definition reflects (w : world) (topic : string) (r : ProviderResult) : Prop :=
  match call_research w (provider r) (key_for w (provider r)) topic with
  | Ret (rep, cits, mdl) =>
      success r = PBool true /\ report r = rep /\ citations r = cits /\ model r = mdl
  | Raise e =>
      success r = PBool false /\ error r = PStr (exc_type e +:+ ": " +:+ exc_str e)
  end.

Definition main (w : world) (a : args) : run :=
  match topic a with
  | None => Run (Raise (SystemExit "1")) []
  | Some t =>
      if String.eqb t "" then Run (Raise (SystemExit "1")) []
      else
        let config := Env.get_config (environ w) (central_env w) in
        let available :=
          if mock a then ["openai"; "perplexity"; "gemini"]
          else Env.get_available_providers config in
        if negb (truthy (PList (map PStr available))) && negb (mock a)
        then Run (Raise (SystemExit "1")) []
        else if mock a then
          Run (results <- run_mock w available;; Ret (sort_results results)) []
        else
          let (collected, names) := collect_live w t config available (timeout a) in
          Run (results <- collected;; Ret (sort_results results)) names
  end.

End DeepResearch.

(** ** Sample inputs *)

Module Samples.

Import Gemini DeepResearch.

(** A service that keeps answering in_progress, with the deadline signal of
    the caller set. *)
Definition always_pending : net :=
  Net (Ret (PDict [("name", PStr "job-1")]))
      (fun _ => Ret (PDict [("status", PStr "in_progress")]))
      true.

(** The scripted replies in_progress, in_progress, completed. *)
Definition script3 : net :=
  Net (Ret (PDict [("name", PStr "job-1"); ("status", PStr "in_progress")]))
      (fun k => match k with
                | 0 | 1 => Ret (PDict [("status", PStr "in_progress")])
                | _ => Ret (PDict [("status", PStr "completed");
                                   ("outputs", PList [PDict [("text", PStr "done")]])])
                end)
      false.

(** A report that names one URL twice, without a source list. *)
Definition repeated_inline : pyval :=
  PDict [("outputs",
          PList [PStr "see https://a.example/x and https://b.example then https://a.example/x"])].

(** A source list that names one URL twice. *)
Definition repeated_sources : pyval :=
  PDict [("outputs", PList [PStr "report"]);
         ("sources", PList [PStr "https://a.example/x"; PStr "https://a.example/x"])].

Definition returning (rep : string) : provider_module :=
  Module_ (fun _ _ => Ret (PStr rep, PList [], PStr "model")) (Some (PStr "model")).

Definition raising (e : exc) : provider_module :=
  Module_ (fun _ _ => Raise e) None.

Definition sample_defaults : ProviderResult :=
  MkResult "" (PBool false) (PStr "") (PList []) (PStr "") (PInt 0) PNone.

(** A Gemini service that has the report ready at submission. *)
Definition ready_net : Gemini.net :=
  Gemini.Net
    (Ret (PDict [("name", PStr "job-1"); ("status", PStr "completed");
                 ("result", PDict [("text", PStr "C")])]))
    (fun _ => Raise (Gemini.HTTPError "unreachable"))
    false.

(** A Gemini service whose job never leaves in_progress. *)
Definition pending_net : Gemini.net :=
  Gemini.Net
    (Ret (PDict [("name", PStr "job-1"); ("status", PStr "in_progress")]))
    (fun _ => Ret (PDict [("status", PStr "in_progress")]))
    false.

Definition sample_world (keys : list (string * string)) (perplexity : provider_module)
    (gemini : Gemini.net) (done : list (string * Z)) : world :=
  World (list_to_map keys) ∅ (fun _ => None)
        (returning "A") perplexity gemini
        (fun _ => "") (fun _ => PInt 1) done sample_defaults.

Definition three_keys : list (string * string) :=
  [("OPENAI_API_KEY", "k1"); ("PERPLEXITY_API_KEY", "k2"); ("GEMINI_API_KEY", "k3")].

Definition two_keys : list (string * string) :=
  [("OPENAI_API_KEY", "k1"); ("GEMINI_API_KEY", "k3")].

Definition live_args : args := Args (Some "topic") false 600.
Definition mock_args : args := Args (Some "topic") true 600.

(** A, B and C finish in time, B raises. *)
Definition isolation_world : world :=
  sample_world three_keys (raising (Exc "ValueError" "boom")) ready_net
    [("gemini", 3%Z); ("openai", 5%Z); ("perplexity", 7%Z)].

(** Two providers; the Gemini job stays in_progress, so that its client is
    still polling at the deadline and gives up after it. *)
Definition slow_gemini_world : world :=
  sample_world two_keys (returning "B") pending_net
    [("openai", 5%Z); ("gemini", 700%Z)].

(** Three providers, one of them blocking until 900 seconds. *)
Definition slow_perplexity_world : world :=
  sample_world three_keys (returning "B") ready_net
    [("gemini", 3%Z); ("openai", 5%Z); ("perplexity", 900%Z)].

End Samples.

(** ** Notions used in the statements *)

Module GeminiNotions.

Import Gemini.

Definition is_post (e : event) : bool :=
  match e with EvPost _ => true | _ => false end.

(** Number of submissions sent. *)
Definition posts (tr : list event) : nat := length (List.filter is_post tr).

(** The identifier that a submission reply gives: the first of [name], [id]
    and [interactionId] that the reply holds, whatever its value. *)
Definition chosen_id (d : list (string * pyval)) : pyval :=
  match items_get d "name" with
  | Some v => v
  | None =>
      match items_get d "id" with
      | Some v => v
      | None =>
          match items_get d "interactionId" with
          | Some v => v
          | None => PStr ""
          end
      end
  end.

Fixpoint all_chars (p : ascii -> bool) (s : string) : bool :=
  match s with
  | EmptyString => true
  | String c rest => p c && all_chars p rest
  end.

(** A literal URL as the pattern takes it: the scheme, [://], and a run of
    class characters that is not empty. *)
Definition url_shaped (m : string) : Prop :=
  exists scheme run,
    (scheme = "http" \/ scheme = "https")
    /\ run <> "" /\ all_chars url_char run = true
    /\ m = scheme +:+ "://" +:+ run.

(** What is left of the text behind a match: nothing, or a piece that
    starts with a character that a URL cannot hold. *)
Definition ends_match (rest : string) : Prop :=
  match rest with
  | EmptyString => True
  | String c _ => url_char c = false
  end.

(** Some match of the pattern begins at the head of [s]. *)
Definition match_at (s : string) : Prop :=
  exists m rest, url_shaped m /\ s = m +:+ rest.

(** The matches of the pattern in a text, as [re.findall] defines them:
    the text is read from left to right; a character at which no match
    begins is passed over; where a match begins, the match is the one that
    runs up to the end of the text or to the first character that a URL
    cannot hold, and the reading goes on right behind it. *)
Inductive scanned : string -> list string -> Prop :=
| scanned_end : scanned EmptyString []
| scanned_pass (c : ascii) (s : string) (ms : list string) :
    ~ match_at (String c s) -> scanned s ms -> scanned (String c s) ms
| scanned_match (m rest : string) (ms : list string) :
    url_shaped m -> ends_match rest -> scanned rest ms ->
    scanned (m +:+ rest) (m :: ms).

(** The time that a trace takes when status check [k] takes [seconds k]
    and every sleep takes its seconds; writing a log line takes none. *)
Fixpoint wall_clock_from (seconds : nat -> nat) (k : nat) (tr : list event) : nat :=
  match tr with
  | [] => 0
  | EvGet _ :: rest => seconds k + wall_clock_from seconds (S k) rest
  | EvSleep n :: rest => n + wall_clock_from seconds k rest
  | _ :: rest => wall_clock_from seconds k rest
  end.

Definition wall_clock (seconds : nat -> nat) (tr : list event) : nat :=
  wall_clock_from seconds 0 tr.

(** What the loop over the structured sources appends for one source. *)
Definition cite (src : pyval) : list pyval := append_source [] src.

(** A service that answers in_progress once and then reports a failure. *)
Definition quota_failure : net :=
  Net (Ret (PDict [("name", PStr "job-1")]))
      (fun k => match k with
                | 0 => Ret (PDict [("status", PStr "in_progress")])
                | _ => Ret (PDict [("status", PStr "FAILED");
                                   ("error", PDict [("message", PStr "quota exceeded")])])
                end)
      false.

(** A submission reply with an empty [name] beside an [id]. *)
Definition empty_name : net :=
  Net (Ret (PDict [("name", PStr ""); ("id", PStr "job-1")]))
      (fun _ => Raise (HTTPError "unused"))
      false.

End GeminiNotions.

Module MoreSamples.

Import DeepResearch Samples.

(** A world whose fixture files all hold an empty JSON object. *)
Definition empty_fixture_world : world :=
  World ∅ ∅ (fun _ => Some (Ret (PDict [])))
        (returning "A") (returning "B") ready_net
        (fun _ => "") (fun _ => PInt 1) [] sample_defaults.

End MoreSamples.

(** * Properties *)

(** ** The polling loop *)

Module GeminiFacts.

Import Gemini Samples.

Lemma polls_app (tr1 tr2 : list event) : polls (tr1 ++ tr2) = polls tr1 + polls tr2.
Proof. unfold polls. now rewrite List.filter_app, List.length_app. Qed.

Lemma slept_app (tr1 tr2 : list event) : slept (tr1 ++ tr2) = slept tr1 + slept tr2.
Proof.
  unfold slept. rewrite List.map_app.
  induction (map sleep_secs tr1) as [|n l IH]; simpl; [reflexivity | lia].
Qed.

Section Loop.

Variable repr : pyval -> string.
Variable N : net.
Variable interaction_id : pyval.

Lemma poll_loop_pending (attempt : nat) (later : list nat) (tr : list event)
    (resp status : pyval) :
  get_reply N (polls tr) = Ret resp ->
  status_of resp = Ret status ->
  terminal status = false ->
  poll_loop repr N interaction_id (attempt :: later) tr
  = poll_loop repr N interaction_id later
      (tr ++ pending_round repr interaction_id attempt status).
Proof.
  intros Hget Hst Hterm.
  apply orb_false_iff in Hterm as [Hc Hf].
  cbn [poll_loop]. unfold io_bind at 1. unfold http_get. rewrite Hget.
  unfold io_bind at 1. unfold io_lift. rewrite Hst.
  unfold io_bind at 1. unfold emit at 1.
  rewrite Hc, Hf.
  unfold io_bind at 1. unfold emit at 1.
  unfold io_bind at 1. unfold emit at 1.
  f_equal. unfold pending_round. now rewrite <- !List.app_assoc.
Qed.

Lemma poll_loop_ending (attempt : nat) (later : list nat) (tr : list event) :
  ends_at N (polls tr) = true ->
  exists tail : list event,
    poll_loop repr N interaction_id (attempt :: later) tr
    = (ending_result repr N (polls tr), tr ++ tail)
    /\ polls tail = 1 /\ slept tail = 0.
Proof.
  unfold ends_at, ending_result. intros Hend.
  cbn [poll_loop]. unfold io_bind at 1. unfold http_get.
  destruct (get_reply N (polls tr)) as [resp|e]; cbn [bind].
  2:{ eexists. split; [reflexivity | split; reflexivity]. }
  unfold io_bind at 1. unfold io_lift.
  destruct (status_of resp) as [status|e]; cbn [bind].
  2:{ eexists. split; [reflexivity | split; reflexivity]. }
  unfold io_bind at 1. unfold emit at 1.
  unfold terminal in Hend.
  destruct (in_pair status "completed" "COMPLETED").
  { unfold io_ret. rewrite <- List.app_assoc. eexists.
    split; [reflexivity | split; reflexivity]. }
  cbn [orb] in Hend. rewrite Hend.
  unfold io_bind. destruct (failure_message repr resp) as [msg|e]; cbn [bind];
    unfold io_raise; rewrite <- List.app_assoc; eexists;
    (split; [reflexivity | split; reflexivity]).
Qed.

(** Every run of the loop: either no reply ends it and the attempts are used
    up, or the first reply that ends it decides the result. *)
Lemma poll_loop_run (attempts : list nat) (tr : list event) :
  let run := poll_loop repr N interaction_id attempts tr in
  (fst run = Raise (HTTPError timeout_message)
   /\ (forall j, j < length attempts -> ends_at N (polls tr + j) = false)
   /\ polls (snd run) = polls tr + length attempts
   /\ slept (snd run) = slept tr + POLL_INTERVAL * length attempts)
  \/ (exists k,
        k < length attempts
        /\ (forall j, j < k -> ends_at N (polls tr + j) = false)
        /\ ends_at N (polls tr + k) = true
        /\ fst run = ending_result repr N (polls tr + k)
        /\ polls (snd run) = polls tr + S k
        /\ slept (snd run) = slept tr + POLL_INTERVAL * k).
Proof.
  revert tr. induction attempts as [|attempt later IH]; intros tr run.
  - left. subst run. cbn [poll_loop io_raise fst snd length].
    split; [reflexivity|]. split; [intros j Hj; lia|]. split; lia.
  - destruct (ends_at N (polls tr)) eqn:Hend.
    + right. exists 0.
      destruct (poll_loop_ending attempt later tr Hend) as (tail & Hrun & Hp & Hs).
      subst run. rewrite Hrun. cbn [fst snd length].
      rewrite Nat.add_0_r, polls_app, slept_app, Hp, Hs.
      split; [lia|]. split; [intros j Hj; lia|]. split; [assumption|].
      split; [reflexivity|]. split; lia.
    + assert (Hstep : exists resp status,
                 get_reply N (polls tr) = Ret resp
                 /\ status_of resp = Ret status /\ terminal status = false).
      { unfold ends_at in Hend.
        destruct (get_reply N (polls tr)) as [resp|]; [|discriminate].
        destruct (status_of resp) as [status|] eqn:Hst; [|discriminate].
        now exists resp, status. }
      destruct Hstep as (resp & status & Hget & Hst & Hterm).
      subst run.
      rewrite (poll_loop_pending attempt later tr resp status Hget Hst Hterm).
      set (tr1 := tr ++ pending_round repr interaction_id attempt status).
      assert (Hp1 : polls tr1 = polls tr + 1)
        by (subst tr1; rewrite polls_app; reflexivity).
      assert (Hs1 : slept tr1 = slept tr + POLL_INTERVAL)
        by (subst tr1; rewrite slept_app; reflexivity).
      destruct (IH tr1) as [(Hr & Hall & Hp & Hs) | (k & Hk & Hall & Hk' & Hr & Hp & Hs)].
      * left. cbn [length]. split; [assumption|]. split; [|split; lia].
        intros j Hj. destruct j as [|j].
        -- now rewrite Nat.add_0_r.
        -- replace (polls tr + S j) with (polls tr1 + j) by lia. apply Hall. lia.
      * right. exists (S k). cbn [length].
        replace (polls tr + S k) with (polls tr1 + k) by lia.
        split; [lia|]. split; [|split; [assumption|split; [assumption|split; lia]]].
        intros j Hj. destruct j as [|j].
        -- now rewrite Nat.add_0_r.
        -- replace (polls tr + S j) with (polls tr1 + j) by lia. apply Hall. lia.
Qed.

End Loop.

Lemma poll_loop_ignores_signal (repr : pyval -> string) (N : net) (c : bool)
    (interaction_id : pyval) (attempts : list nat) (tr : list event) :
  poll_loop repr (Net (post_reply N) (get_reply N) c) interaction_id attempts tr
  = poll_loop repr N interaction_id attempts tr.
Proof.
  revert tr. induction attempts as [|attempt later IH]; intros tr; [reflexivity|].
  cbn [poll_loop]. unfold io_bind, http_get, io_lift, emit. cbn [get_reply].
  destruct (get_reply N (polls tr)) as [resp|e]; [|reflexivity].
  destruct (status_of resp) as [status|e]; [|reflexivity].
  destruct (in_pair status "completed" "COMPLETED"); [reflexivity|].
  destruct (in_pair status "failed" "FAILED"); [reflexivity|].
  apply IH.
Qed.

Lemma failure_is_not_timeout (repr : pyval -> string) (resp : pyval) (msg : string) :
  failure_message repr resp = Ret msg -> msg <> timeout_message.
Proof.
  unfold failure_message. intros H.
  destruct (get resp "error" (PDict [])) as [error|]; [|discriminate].
  cbn [bind] in H.
  destruct (if is_dict error then get error "message" (PStr "Unknown error")
            else Ret (PStr (py_str repr error))) as [m|]; [|discriminate].
  cbn [bind] in H. injection H as <-.
  vm_compute timeout_message. cbn [String.append]. discriminate.
Qed.

(** C5: with the scripted replies in_progress, in_progress, completed, the
    client issues exactly three status checks and nothing after the third,
    and returns what the extraction gives for the completed reply. *)
Theorem polling_script_three_calls (repr : pyval -> string) (N : net)
    (api_key topic : string)
    (submission interaction_id s0 r1 s1 r2 s2 r3 s3 rep : pyval)
    (cits : list pyval) :
  post_reply N = Ret submission ->
  interaction_id_of submission = Ret interaction_id ->
  truthy interaction_id = true ->
  status_of submission = Ret s0 ->
  in_pair s0 "completed" "COMPLETED" = false ->
  get_reply N 0 = Ret r1 -> status_of r1 = Ret s1 -> terminal s1 = false ->
  get_reply N 1 = Ret r2 -> status_of r2 = Ret s2 -> terminal s2 = false ->
  get_reply N 2 = Ret r3 -> status_of r3 = Ret s3 ->
  in_pair s3 "completed" "COMPLETED" = true ->
  _extract_report r3 = Ret (rep, cits) ->
  let run := research repr N api_key topic [] in
  fst run = Ret (rep, cits, AGENT)
  /\ polls (snd run) = 3
  /\ fst (_poll_response repr N api_key interaction_id []) = Ret r3
  /\ snd run
     = [EvPost (BASE_URL +:+ "/interactions")]
       ++ pending_round repr interaction_id 0 s1
       ++ pending_round repr interaction_id 1 s2
       ++ [EvGet (BASE_URL +:+ "/interactions/" +:+ py_str repr interaction_id);
           EvLog ("Gemini poll 3: status=" +:+ py_str repr s3)].
Proof.
  intros Hpost Hid Htruthy Hs0 Hc0 Hg1 Hs1 Ht1 Hg2 Hs2 Ht2 Hg3 Hs3 Hc3 Hex run.
  assert (Hloop : forall tr0, polls tr0 = 0 ->
            _poll_response repr N api_key interaction_id tr0
            = (Ret r3,
               tr0 ++ pending_round repr interaction_id 0 s1
                   ++ pending_round repr interaction_id 1 s2
                   ++ [EvGet (BASE_URL +:+ "/interactions/"
                                +:+ py_str repr interaction_id);
                       EvLog ("Gemini poll 3: status=" +:+ py_str repr s3)])).
  { intros tr0 H0. unfold _poll_response.
    change (seq 0 MAX_POLL_ATTEMPTS) with (0 :: 1 :: 2 :: seq 3 37).
    rewrite (poll_loop_pending repr N interaction_id 0 _ tr0 r1 s1);
      [|rewrite H0; assumption|assumption|assumption].
    rewrite (poll_loop_pending repr N interaction_id 1 _ _ r2 s2);
      [|rewrite polls_app, H0; assumption|assumption|assumption].
    cbn [poll_loop]. unfold io_bind at 1. unfold http_get.
    rewrite !polls_app, H0. cbn [polls pending_round List.filter is_get length Nat.add].
    rewrite Hg3. unfold io_bind at 1. unfold io_lift. rewrite Hs3.
    unfold io_bind at 1. unfold emit at 1. rewrite Hc3. unfold io_ret.
    rewrite <- !List.app_assoc. reflexivity. }
  assert (Hrun : research repr N api_key topic []
                 = (Ret (rep, cits, AGENT),
                    [EvPost (BASE_URL +:+ "/interactions")]
                      ++ pending_round repr interaction_id 0 s1
                      ++ pending_round repr interaction_id 1 s2
                      ++ [EvGet (BASE_URL +:+ "/interactions/"
                                   +:+ py_str repr interaction_id);
                          EvLog ("Gemini poll 3: status=" +:+ py_str repr s3)])).
  { unfold research, _submit_request.
    unfold io_bind at 1. unfold http_post. rewrite Hpost.
    unfold io_bind at 1. unfold io_lift at 1. rewrite Hid. rewrite Htruthy. cbn [negb].
    unfold io_bind at 1. unfold io_lift at 1. rewrite Hs0. rewrite Hc0.
    unfold io_bind at 1. rewrite Hloop by reflexivity.
    unfold io_bind at 1. unfold io_lift at 1. rewrite Hex. reflexivity. }
  subst run. rewrite Hrun, (Hloop [] eq_refl). cbn [fst snd].
  split; [reflexivity|]. split; [|split; reflexivity].
  rewrite !polls_app. reflexivity.
Qed.

Lemma polling_script_three_calls_witness :
  fst (research (fun _ => "") script3 "key" "topic" [])
  = Ret (PStr "done", [], AGENT)
  /\ polls (snd (research (fun _ => "") script3 "key" "topic" [])) = 3.
Proof.
  pose proof (polling_script_three_calls (fun _ => "") script3 "key" "topic"
                (PDict [("name", PStr "job-1"); ("status", PStr "in_progress")])
                (PStr "job-1") (PStr "in_progress")
                (PDict [("status", PStr "in_progress")]) (PStr "in_progress")
                (PDict [("status", PStr "in_progress")]) (PStr "in_progress")
                (PDict [("status", PStr "completed");
                        ("outputs", PList [PDict [("text", PStr "done")]])])
                (PStr "completed") (PStr "done") []
                eq_refl eq_refl eq_refl eq_refl eq_refl eq_refl eq_refl eq_refl
                eq_refl eq_refl eq_refl eq_refl eq_refl eq_refl eq_refl) as H.
  cbv zeta in H. destruct H as (H1 & H2 & _). split; assumption.
Defined.

(** A reply whose status can be read is a record, and the message of its
    failure starts with the words of a provider-reported failure. *)
Lemma failure_message_shape (repr : pyval -> string) (resp status : pyval) :
  status_of resp = Ret status ->
  exists detail,
    failure_message repr resp = Ret ("Gemini deep research failed: " +:+ detail).
Proof.
  intros Hst. destruct resp as [| | | | | |d]; try discriminate Hst.
  unfold failure_message. cbn [get bind].
  destruct (is_dict (dict_get d "error" (PDict []))) eqn:Hd.
  - destruct (dict_get d "error" (PDict [])) as [| | | | | |e]; try discriminate Hd.
    cbn [get bind]. eexists. reflexivity.
  - cbn [bind]. eexists. reflexivity.
Qed.

Lemma wall_clock_bound (seconds : nat -> nat) (d : nat) (tr : list event) (k : nat) :
  (forall j, seconds j <= d) ->
  GeminiNotions.wall_clock_from seconds k tr <= polls tr * d + slept tr.
Proof.
  intros Hd. revert k. induction tr as [|e tr IH]; intros k; [cbn; lia|].
  change (polls (e :: tr)) with (polls ([e] ++ tr)).
  change (slept (e :: tr)) with (slept ([e] ++ tr)).
  rewrite polls_app, slept_app.
  destruct e; cbn [GeminiNotions.wall_clock_from];
    [specialize (IH k) | specialize (IH (S k)) | specialize (IH k)
     | specialize (IH k) | specialize (IH k)];
    try specialize (Hd k); cbn; lia.
Qed.

(** C6: whatever the service replies, the loop issues at most
    MAX_POLL_ATTEMPTS status checks and sleeps at most
    MAX_POLL_ATTEMPTS * POLL_INTERVAL seconds, so that it takes at most
    MAX_POLL_ATTEMPTS times the interval plus the longest status check.
    When none of the checks of the budget meets a terminal status it ends,
    after exactly MAX_POLL_ATTEMPTS checks, with the time-out failure.  When
    the first check that ends the loop carries a terminal status, the loop
    ends at that check and not with the time-out failure: it returns the
    reply when the status is completed, and raises the provider-reported
    failure, whose message starts with other words, when it is failed. *)
Theorem poll_attempts_bounded (repr : pyval -> string) (N : net)
    (api_key : string) (interaction_id : pyval) :
  let run := _poll_response repr N api_key interaction_id [] in
  let timed_out : res pyval :=
    Raise (HTTPError "Gemini deep research timed out after 600s") in
  polls (snd run) <= MAX_POLL_ATTEMPTS
  /\ slept (snd run) <= MAX_POLL_ATTEMPTS * POLL_INTERVAL
  /\ (forall seconds d,
        (forall k, seconds k <= d) ->
        GeminiNotions.wall_clock seconds (snd run)
        <= MAX_POLL_ATTEMPTS * (d + POLL_INTERVAL))
  /\ ((forall k, k < MAX_POLL_ATTEMPTS -> ends_at N k = false) ->
      fst run = timed_out
      /\ polls (snd run) = MAX_POLL_ATTEMPTS
      /\ slept (snd run) = MAX_POLL_ATTEMPTS * POLL_INTERVAL)
  /\ (forall k resp status,
        k < MAX_POLL_ATTEMPTS ->
        (forall j, j < k -> ends_at N j = false) ->
        get_reply N k = Ret resp ->
        status_of resp = Ret status ->
        terminal status = true ->
        polls (snd run) = S k
        /\ slept (snd run) = POLL_INTERVAL * k
        /\ fst run <> timed_out
        /\ (in_pair status "completed" "COMPLETED" = true -> fst run = Ret resp)
        /\ (in_pair status "completed" "COMPLETED" = false ->
            exists detail,
              fst run
              = Raise (HTTPError ("Gemini deep research failed: " +:+ detail))))
  /\ (forall resp msg,
        failure_message repr resp = Ret msg ->
        HTTPError msg <> HTTPError "Gemini deep research timed out after 600s").
Proof.
  intros run timed_out. subst run timed_out. unfold _poll_response.
  pose proof (poll_loop_run repr N interaction_id (seq 0 MAX_POLL_ATTEMPTS) []) as H.
  cbv zeta in H. rewrite List.length_seq in H.
  change (polls []) with 0 in H. change (slept []) with 0 in H. cbn [Nat.add] in H.
  assert (Hp : polls (snd (poll_loop repr N interaction_id (seq 0 MAX_POLL_ATTEMPTS) []))
               <= MAX_POLL_ATTEMPTS)
    by (destruct H as [(_ & _ & Hp & _) | (k & Hk & _ & _ & _ & Hp & _)]; lia).
  assert (Hs : slept (snd (poll_loop repr N interaction_id (seq 0 MAX_POLL_ATTEMPTS) []))
               <= MAX_POLL_ATTEMPTS * POLL_INTERVAL)
    by (destruct H as [(_ & _ & _ & Hs) | (k & Hk & _ & _ & _ & _ & Hs)];
        rewrite Hs; unfold MAX_POLL_ATTEMPTS, POLL_INTERVAL in *; lia).
  split; [exact Hp|]. split; [exact Hs|]. split; [|split; [|split]].
  - intros seconds d Hd. unfold GeminiNotions.wall_clock.
    pose proof (wall_clock_bound seconds d
                  (snd (poll_loop repr N interaction_id (seq 0 MAX_POLL_ATTEMPTS) []))
                  0 Hd) as Hw.
    nia.
  - intros Hnone.
    destruct H as [(Hr & _ & Hp' & Hs') | (k & Hk & _ & Hend & _)].
    + split; [exact Hr|]. split; [exact Hp'|]. rewrite Hs'. apply Nat.mul_comm.
    + rewrite (Hnone k Hk) in Hend. discriminate.
  - intros k resp status Hk Hbefore Hget Hst Hterm.
    assert (Hends : ends_at N k = true) by (unfold ends_at; now rewrite Hget, Hst).
    destruct H as [(_ & Hall & _) | (k' & Hk' & Hbefore' & Hend' & Hr & Hp' & Hs')].
    { rewrite (Hall k Hk) in Hends. discriminate. }
    assert (k' = k) as ->.
    { destruct (Nat.lt_trichotomy k' k) as [Hlt|[Heq|Hgt]]; [|exact Heq|].
      - rewrite (Hbefore k' Hlt) in Hend'. discriminate.
      - rewrite (Hbefore' k Hgt) in Hends. discriminate. }
    split; [exact Hp'|]. split; [exact Hs'|].
    rewrite Hr. unfold ending_result. rewrite Hget. cbn [bind]. rewrite Hst. cbn [bind].
    destruct (failure_message_shape repr resp status Hst) as (detail & Hmsg).
    destruct (in_pair status "completed" "COMPLETED").
    + split; [discriminate|]. split; [reflexivity | discriminate].
    + rewrite Hmsg. cbn [bind]. split; [|split; [discriminate|]].
      * intros Heq. apply (failure_is_not_timeout repr resp _ Hmsg).
        exact (f_equal (fun r : res pyval =>
                          match r with Raise e => exc_str e | Ret _ => "" end) Heq).
      * intros _. now exists detail.
  - intros resp msg Hmsg Heq. injection Heq as Heq.
    exact (failure_is_not_timeout repr resp msg Hmsg Heq).
Qed.

Lemma poll_attempts_bounded_witness :
  fst (_poll_response (fun _ => "") always_pending "key" (PStr "job-1") [])
  = Raise (HTTPError "Gemini deep research timed out after 600s")
  /\ polls (snd (_poll_response (fun _ => "") always_pending "key" (PStr "job-1") []))
     = 40.
Proof.
  destruct (poll_attempts_bounded (fun _ => "") always_pending "key" (PStr "job-1"))
    as (_ & _ & _ & H & _).
  destruct (H (fun k _ => eq_refl)) as (Hr & Hp & _).
  split; [exact Hr | exact Hp].
Defined.

(** C7, as the code has it: the loop takes no cancellation or deadline
    signal.  Its run is the same whatever the signal; it ends only with the
    first reply that raises or carries a terminal status, or after
    MAX_POLL_ATTEMPTS status checks; and it has slept POLL_INTERVAL seconds
    after each status check that did not end it. *)
Theorem poll_runs_to_the_attempt_ceiling (repr : pyval -> string) (N : net)
    (api_key : string) (interaction_id : pyval) :
  (forall c : bool,
     _poll_response repr (Net (post_reply N) (get_reply N) c) api_key interaction_id []
     = _poll_response repr N api_key interaction_id [])
  /\ let run := _poll_response repr N api_key interaction_id [] in
     (fst run = Raise (HTTPError timeout_message)
      /\ (forall j, j < MAX_POLL_ATTEMPTS -> ends_at N j = false)
      /\ polls (snd run) = MAX_POLL_ATTEMPTS
      /\ slept (snd run) = POLL_INTERVAL * MAX_POLL_ATTEMPTS)
     \/ (exists k,
           k < MAX_POLL_ATTEMPTS
           /\ (forall j, j < k -> ends_at N j = false)
           /\ ends_at N k = true
           /\ fst run = ending_result repr N k
           /\ polls (snd run) = S k
           /\ slept (snd run) = POLL_INTERVAL * k).
Proof.
  split.
  - intros c. apply poll_loop_ignores_signal.
  - intros run. subst run. unfold _poll_response.
    pose proof (poll_loop_run repr N interaction_id (seq 0 MAX_POLL_ATTEMPTS) []) as H.
    cbv zeta in H. rewrite List.length_seq in H.
    change (polls []) with 0 in H. change (slept []) with 0 in H.
    cbn [Nat.add] in H. exact H.
Qed.

(** C7, as stated, fails: with the signal set from the start and a service
    that keeps answering in_progress, the loop still issues its status
    checks and sleeps. *)
Lemma poll_ignores_cancellation :
  ~ honours_cancellation
      (fun N => _poll_response (fun _ => "") N "key" (PStr "job-1") []).
Proof.
  intros H.
  destruct (H always_pending eq_refl) as (Hp & _).
  vm_compute in Hp. discriminate.
Qed.

End GeminiFacts.

(** ** Citation extraction *)

Module ExtractFacts.

Import Gemini Samples.

Lemma filter_filter_absorb {A : Type} (f g : A -> bool) (l : list A) :
  (forall x, f x = true -> g x = true) ->
  List.filter f (List.filter g l) = List.filter f l.
Proof.
  intros Himp. induction l as [|x l IH]; [reflexivity|]. cbn [List.filter].
  destruct (g x) eqn:Hg, (f x) eqn:Hf; cbn [List.filter]; rewrite ?Hf, ?IH; try reflexivity.
  apply Himp in Hf. congruence.
Qed.

Lemma filter_filter_and {A : Type} (f g : A -> bool) (l : list A) :
  List.filter f (List.filter g l) = List.filter (fun x => g x && f x) l.
Proof.
  induction l as [|x l IH]; [reflexivity|]. cbn [List.filter].
  destruct (g x); cbn [List.filter andb]; [destruct (f x)|]; now rewrite IH.
Qed.

(** The loop adds, behind what it has, the first occurrences that are not in
    [seen]. *)
Lemma dedup_loop_spec (urls : list string) (seen : gset string) (acc : list pyval) :
  dedup_loop urls seen acc
  = acc ++ map url_record (List.filter (unseen seen) (first_occurrences urls)).
Proof.
  revert seen acc. induction urls as [|url rest IH]; intros seen acc.
  - cbn. now rewrite List.app_nil_r.
  - cbn [dedup_loop first_occurrences List.filter]. unfold unseen at 1.
    destruct (decide (url ∈ seen)) as [Hin|Hnin].
    + rewrite (bool_decide_eq_true_2 _ Hin). cbn [negb]. rewrite IH. f_equal. f_equal.
      symmetry. apply filter_filter_absorb. intros x Hx. unfold unseen in Hx.
      apply negb_true_iff, bool_decide_eq_false in Hx.
      apply negb_true_iff, String.eqb_neq. intros ->. contradiction.
    + rewrite (bool_decide_eq_false_2 _ Hnin). cbn [negb map]. rewrite IH.
      rewrite <- List.app_assoc. cbn [List.app]. f_equal. f_equal. f_equal.
      rewrite filter_filter_and. apply List.filter_ext. intros x. unfold unseen.
      destruct (String.eqb_spec x url) as [->|Hne]; cbn [negb andb].
      * apply negb_false_iff, bool_decide_eq_true.
        apply elem_of_union. left. now apply elem_of_singleton.
      * f_equal. apply bool_decide_ext.
        rewrite elem_of_union, elem_of_singleton. tauto.
Qed.

Lemma dedup_loop_first_occurrences (urls : list string) :
  dedup_loop urls ∅ [] = map url_record (first_occurrences urls).
Proof.
  rewrite dedup_loop_spec. cbn [List.app]. f_equal.
  apply List.forallb_filter_id. apply List.forallb_forall. intros x _.
  unfold unseen. apply negb_true_iff, bool_decide_eq_false. set_solver.
Qed.

Lemma first_occurrences_In (urls : list string) (u : string) :
  List.In u (first_occurrences urls) <-> List.In u urls.
Proof.
  induction urls as [|url rest IH]; [reflexivity|].
  cbn [first_occurrences List.In]. rewrite List.filter_In, IH.
  destruct (String.eqb_spec u url) as [->|Hne]; cbn [negb].
  - split; [intros [?|[? ?]]|]; auto.
  - split; [intros [?|[? ?]]; auto|intros [?|?]; auto].
Qed.

Lemma first_occurrences_NoDup (urls : list string) :
  List.NoDup (first_occurrences urls).
Proof.
  induction urls as [|url rest IH]; [constructor|].
  cbn [first_occurrences]. constructor.
  - rewrite List.filter_In. intros [_ H]. now rewrite String.eqb_refl in H.
  - now apply List.NoDup_filter.
Qed.

Lemma StronglySorted_map_filter {A : Type} (f : A -> nat) (p : A -> bool) (l : list A) :
  StronglySorted lt (map f l) -> StronglySorted lt (map f (List.filter p l)).
Proof.
  induction l as [|x l IH]; [trivial|]. cbn [map List.filter]. intros H.
  apply StronglySorted_inv in H as [Hl Hx]. destruct (p x); [|auto].
  cbn [map]. constructor; [auto|].
  rewrite List.Forall_forall in *. intros n Hn. apply Hx.
  apply List.in_map_iff in Hn as (y & <- & Hy). apply List.filter_In in Hy as [Hy _].
  now apply List.in_map.
Qed.

(** Along the result the positions of the first occurrences increase. *)
Lemma first_occurrences_order (urls : list string) :
  StronglySorted lt (map (fun u => index_of u urls) (first_occurrences urls)).
Proof.
  induction urls as [|url rest IH]; [constructor|].
  cbn [first_occurrences map index_of]. rewrite String.eqb_refl.
  set (kept := List.filter (fun u => negb (String.eqb u url)) (first_occurrences rest)).
  assert (Hmap : map (fun u => if String.eqb url u then 0 else S (index_of u rest)) kept
                 = map S (map (fun u => index_of u rest) kept)).
  { rewrite List.map_map. apply List.map_ext_in. intros u Hu.
    apply List.filter_In in Hu as [_ Hu]. apply negb_true_iff in Hu.
    rewrite String.eqb_sym, Hu. reflexivity. }
  rewrite Hmap. constructor.
  - assert (Hk : StronglySorted lt (map (fun u => index_of u rest) kept))
      by (apply StronglySorted_map_filter; exact IH).
    clear -Hk. induction (map (fun u => index_of u rest) kept) as [|n l IHl];
      [constructor|].
    apply StronglySorted_inv in Hk as [Hl Hn]. cbn [map]. constructor; [auto|].
    rewrite List.Forall_forall in *. intros m Hm.
    apply List.in_map_iff in Hm as (m' & <- & Hm'). apply Hn in Hm'. lia.
  - apply List.Forall_forall. intros n Hn.
    apply List.in_map_iff in Hn as (m & <- & _). lia.
Qed.

(** C8, as the code has it: when the structured source list yields no
    citation and the report is a non-empty text, the citations are the
    literal URLs of the text, each distinct URL once, in the order of their
    first occurrences; a structured list that yields citations is returned
    as it is. *)
Theorem fallback_citations_deduplicated (response : pyval) (text : string) :
  report_of response = Ret (PStr text) ->
  text <> "" ->
  structured_citations response = Ret [] ->
  let urls := first_occurrences (findall text) in
  _extract_report response = Ret (PStr text, map url_record urls)
  /\ map citation_url (map url_record urls) = map (fun u => Some (PStr u)) urls
  /\ List.NoDup urls
  /\ (forall u, List.In u urls <-> List.In u (findall text))
  /\ StronglySorted lt (map (fun u => index_of u (findall text)) urls)
  /\ (forall resp rep cits,
        report_of resp = Ret rep ->
        structured_citations resp = Ret cits ->
        cits <> [] ->
        _extract_report resp = Ret (rep, cits)).
Proof.
  intros Hrep Htext Hnone urls. subst urls.
  split; [|split; [|split; [|split; [|split]]]].
  - unfold _extract_report. rewrite Hrep, Hnone. cbn [bind truthy negb andb].
    apply String.eqb_neq in Htext. rewrite Htext. cbn [negb inline_citations bind].
    now rewrite dedup_loop_first_occurrences.
  - rewrite List.map_map. reflexivity.
  - apply first_occurrences_NoDup.
  - intros u. apply first_occurrences_In.
  - apply first_occurrences_order.
  - intros resp rep cits Hr Hc Hne. unfold _extract_report. rewrite Hr, Hc.
    cbn [bind]. destruct cits as [|c cits]; [contradiction|]. reflexivity.
Qed.

Lemma fallback_citations_deduplicated_witness :
  _extract_report repeated_inline
  = Ret (PStr "see https://a.example/x and https://b.example then https://a.example/x",
         [PDict [("url", PStr "https://a.example/x")];
          PDict [("url", PStr "https://b.example")]]).
Proof.
  destruct (fallback_citations_deduplicated repeated_inline
              "see https://a.example/x and https://b.example then https://a.example/x"
              eq_refl ltac:(discriminate) eq_refl) as (H & _).
  exact H.
Defined.

(** C8, as stated, fails: a structured source list that names a URL twice
    gives two citations with that URL. *)
Lemma structured_duplicates_kept :
  exists rep cits,
    _extract_report repeated_sources = Ret (rep, cits)
    /\ ~ List.NoDup (map citation_url cits).
Proof.
  eexists. eexists. split; [reflexivity|].
  cbn. intros H. apply List.NoDup_cons_iff in H as [H _]. apply H. now left.
Qed.

End ExtractFacts.


(** ** The orchestrator *)

Module DeepResearchFacts.

Import DeepResearch Samples.

Ltac nodup_strings :=
  repeat match goal with
         | |- List.NoDup [] => constructor
         | |- List.NoDup (_ :: _) => constructor; [cbn; intuition discriminate|]
         end.

Lemma sort_key_name (r : ProviderResult) : sort_key r = name_key (provider r).
Proof. reflexivity. Qed.

Lemma name_key_cases (p : string) :
  (p = "openai" /\ name_key p = 0)
  \/ (p = "perplexity" /\ name_key p = 1)
  \/ (p = "gemini" /\ name_key p = 2)
  \/ (p <> "openai" /\ p <> "perplexity" /\ p <> "gemini" /\ name_key p = 99).
Proof.
  unfold name_key, order. cbn [list_to_map foldr uncurry fst snd].
  destruct (decide (p = "openai")) as [->|H1]; [left; split; reflexivity|].
  destruct (decide (p = "perplexity")) as [->|H2]; [right; left; split; reflexivity|].
  destruct (decide (p = "gemini")) as [->|H3]; [right; right; left; split; reflexivity|].
  right; right; right. repeat split; try assumption.
  rewrite !lookup_insert_ne by congruence. now rewrite lookup_empty.
Qed.

Lemma outside_key (r : ProviderResult) : outside r = Nat.eqb (sort_key r) 99.
Proof.
  unfold outside, canonical, mem. cbn [existsb]. rewrite sort_key_name.
  destruct (name_key_cases (provider r)) as [[-> ->]|[[-> ->]|[[-> ->]|(H1 & H2 & H3 & ->)]]];
    try reflexivity.
  apply String.eqb_neq in H1, H2, H3. rewrite H1, H2, H3. reflexivity.
Qed.

Lemma insert_sorted_first (x : ProviderResult) (l : list ProviderResult) :
  (forall y, List.In y l -> sort_key x <= sort_key y) ->
  insert_sorted x l = x :: l.
Proof.
  destruct l as [|y l]; [reflexivity|]. intros H. cbn [insert_sorted].
  rewrite (proj2 (Nat.leb_le _ _)); [reflexivity|]. apply H. now left.
Qed.

Lemma insert_sorted_skip (x : ProviderResult) (l1 l2 : list ProviderResult) :
  (forall y, List.In y l1 -> sort_key y < sort_key x) ->
  insert_sorted x (l1 ++ l2) = l1 ++ insert_sorted x l2.
Proof.
  induction l1 as [|y l1 IH]; intros H; [reflexivity|].
  cbn [List.app insert_sorted].
  rewrite (proj2 (Nat.leb_gt _ _)) by (apply H; now left).
  f_equal. apply IH. intros z Hz. apply H. now right.
Qed.

Lemma with_key_In (k : nat) (l : list ProviderResult) (y : ProviderResult) :
  List.In y (with_key k l) -> sort_key y = k.
Proof. unfold with_key. rewrite List.filter_In. intros [_ H]. now apply Nat.eqb_eq. Qed.

Lemma with_key_cons (k : nat) (x : ProviderResult) (l : list ProviderResult) :
  with_key k (x :: l) = if Nat.eqb (sort_key x) k then x :: with_key k l else with_key k l.
Proof. reflexivity. Qed.

(** The stable sort groups the results by key and keeps the order of the
    list inside each group. *)
Lemma sort_results_groups (l : list ProviderResult) :
  sort_results l = with_key 0 l ++ with_key 1 l ++ with_key 2 l ++ with_key 99 l.
Proof.
  induction l as [|x l IH]; [reflexivity|].
  cbn [sort_results fold_right]. fold (sort_results l). rewrite IH.
  rewrite !with_key_cons.
  assert (Hin : forall k y,
            List.In y (with_key k l) -> sort_key y = k) by (intros; eapply with_key_In; eauto).
  assert (Hx : sort_key x = 0 \/ sort_key x = 1 \/ sort_key x = 2 \/ sort_key x = 99).
  { rewrite sort_key_name.
    destruct (name_key_cases (provider x)) as [[_ ->]|[[_ ->]|[[_ ->]|(_ & _ & _ & ->)]]]; auto. }
  destruct Hx as [Hx|[Hx|[Hx|Hx]]]; rewrite Hx; cbn [Nat.eqb].
  - apply insert_sorted_first. intros y Hy. lia.
  - rewrite insert_sorted_skip by (intros y Hy; apply Hin in Hy; lia).
    f_equal. apply insert_sorted_first. intros y Hy.
    rewrite !List.in_app_iff in Hy. destruct Hy as [Hy|[Hy|Hy]]; apply Hin in Hy; lia.
  - rewrite insert_sorted_skip by (intros y Hy; apply Hin in Hy; lia).
    f_equal.
    rewrite insert_sorted_skip by (intros y Hy; apply Hin in Hy; lia).
    f_equal. apply insert_sorted_first. intros y Hy.
    rewrite !List.in_app_iff in Hy. destruct Hy as [Hy|Hy]; apply Hin in Hy; lia.
  - rewrite insert_sorted_skip by (intros y Hy; apply Hin in Hy; lia).
    f_equal.
    rewrite insert_sorted_skip by (intros y Hy; apply Hin in Hy; lia).
    f_equal.
    rewrite insert_sorted_skip by (intros y Hy; apply Hin in Hy; lia).
    f_equal. apply insert_sorted_first. intros y Hy. apply Hin in Hy. lia.
Qed.

Lemma key_is_name (p : string) :
  Nat.eqb (name_key p) 0 = String.eqb p "openai"
  /\ Nat.eqb (name_key p) 1 = String.eqb p "perplexity"
  /\ Nat.eqb (name_key p) 2 = String.eqb p "gemini".
Proof.
  destruct (name_key_cases p) as [[-> ->]|[[-> ->]|[[-> ->]|(H1 & H2 & H3 & ->)]]];
    try (repeat split; reflexivity).
  apply String.eqb_neq in H1, H2, H3. rewrite H1, H2, H3. repeat split; reflexivity.
Qed.

Lemma with_key_by_name (l : list ProviderResult) :
  with_key 0 l = List.filter (fun r => String.eqb (provider r) "openai") l
  /\ with_key 1 l = List.filter (fun r => String.eqb (provider r) "perplexity") l
  /\ with_key 2 l = List.filter (fun r => String.eqb (provider r) "gemini") l
  /\ with_key 99 l = List.filter outside l.
Proof.
  unfold with_key.
  repeat split; apply List.filter_ext; intros r; rewrite ?sort_key_name;
    try apply key_is_name.
  symmetry. apply outside_key.
Qed.

Section ByName.

Context {A : Type} (f : A -> string).

Lemma Permutation_filter_by (g : A -> bool) (l1 l2 : list A) :
  Permutation l1 l2 -> Permutation (List.filter g l1) (List.filter g l2).
Proof.
  induction 1 as [|x l1 l2 _ IH|x y l|l1 l2 l3 _ IH1 _ IH2]; cbn [List.filter].
  - constructor.
  - destruct (g x); [now constructor | assumption].
  - destruct (g x), (g y); try reflexivity. apply perm_swap.
  - now transitivity (List.filter g l2).
Qed.

Lemma same_name_at_most_one (n : string) (l : list A) :
  List.NoDup (map f l) -> (forall x, List.In x l -> f x = n) -> length l <= 1.
Proof.
  destruct l as [|x [|y l]]; cbn [length]; try lia. intros Hnd Hn.
  exfalso. cbn [map] in Hnd. apply List.NoDup_cons_iff in Hnd as [Hx _]. apply Hx.
  left. rewrite (Hn x), (Hn y); [reflexivity| |]; cbn; auto.
Qed.

Lemma NoDup_map_filter (g : A -> bool) (l : list A) :
  List.NoDup (map f l) -> List.NoDup (map f (List.filter g l)).
Proof.
  induction l as [|x l IH]; [trivial|]. cbn [map List.filter]. intros H.
  apply List.NoDup_cons_iff in H as [Hx Hl]. destruct (g x); [|auto].
  cbn [map]. constructor; [|auto]. intros Hin. apply Hx.
  apply List.in_map_iff in Hin as (y & <- & Hy). apply List.filter_In in Hy as [Hy _].
  now apply List.in_map.
Qed.

(** In a list without two elements of one name, the element of a given name
    does not depend on the order of the list. *)
Lemma filter_name_Permutation (n : string) (l1 l2 : list A) :
  Permutation l1 l2 ->
  List.NoDup (map f l1) ->
  List.filter (fun x => String.eqb (f x) n) l1
  = List.filter (fun x => String.eqb (f x) n) l2.
Proof.
  intros Hperm Hnd.
  pose proof (Permutation_filter_by (fun x => String.eqb (f x) n) l1 l2 Hperm) as Hp.
  assert (Hlen : length (List.filter (fun x => String.eqb (f x) n) l1) <= 1).
  { apply (same_name_at_most_one n); [now apply NoDup_map_filter|].
    intros x Hx. apply List.filter_In in Hx as [_ Hx]. now apply String.eqb_eq. }
  destruct (List.filter (fun x => String.eqb (f x) n) l1) as [|x [|y l]];
    cbn [length] in Hlen; try lia.
  - now apply Permutation_nil in Hp.
  - now apply Permutation_length_1_inv in Hp.
Qed.

End ByName.

(** For results of pairwise distinct providers, the sorted list is the
    result of openai, then of perplexity, then of gemini, then the results of
    the other providers in the order in which they were collected; so two
    collections of the same results are sorted alike as soon as they agree on
    the order of the results outside the canonical list. *)
Lemma sort_results_of_permutation (l1 l2 : list ProviderResult) :
  Permutation l1 l2 ->
  List.NoDup (map provider l1) ->
  List.filter outside l1 = List.filter outside l2 ->
  sort_results l1 = sort_results l2
  /\ sort_results l1
     = List.filter (fun r => String.eqb (provider r) "openai") l1
       ++ List.filter (fun r => String.eqb (provider r) "perplexity") l1
       ++ List.filter (fun r => String.eqb (provider r) "gemini") l1
       ++ List.filter outside l1.
Proof.
  intros Hperm Hnd Hout.
  rewrite !sort_results_groups.
  destruct (with_key_by_name l1) as (-> & -> & -> & ->).
  destruct (with_key_by_name l2) as (-> & -> & -> & ->).
  split; [|reflexivity].
  rewrite Hout.
  rewrite (filter_name_Permutation provider "openai" l1 l2 Hperm Hnd).
  rewrite (filter_name_Permutation provider "perplexity" l1 l2 Hperm Hnd).
  rewrite (filter_name_Permutation provider "gemini" l1 l2 Hperm Hnd).
  reflexivity.
Qed.

(** *** A live run *)

Lemma mem_In (p : string) (l : list string) : mem p l = true <-> List.In p l.
Proof.
  unfold mem. rewrite List.existsb_exists. split.
  - intros (x & Hx & Heq). apply String.eqb_eq in Heq. now subst.
  - intros H. exists p. split; [assumption | apply String.eqb_refl].
Qed.

(** The eight active-provider sets. *)
Lemma available_cases (config : gmap string (option string)) :
  List.In (Env.get_available_providers config)
    [ []; ["gemini"]; ["perplexity"]; ["perplexity"; "gemini"];
      ["openai"]; ["openai"; "gemini"]; ["openai"; "perplexity"];
      ["openai"; "perplexity"; "gemini"] ].
Proof.
  unfold Env.get_available_providers.
  destruct (Env.configured config "OPENAI_API_KEY"),
           (Env.configured config "PERPLEXITY_API_KEY"),
           (Env.configured config "GEMINI_API_KEY"); cbn; tauto.
Qed.

Lemma available_canonical (config : gmap string (option string)) (p : string) :
  List.In p (Env.get_available_providers config) -> List.In p canonical.
Proof.
  pose proof (available_cases config) as H. cbn in H.
  repeat (destruct H as [<-|H]; [cbn; tauto|]). contradiction.
Qed.

Lemma available_NoDup (config : gmap string (option string)) :
  List.NoDup (Env.get_available_providers config).
Proof.
  pose proof (available_cases config) as H. cbn in H.
  repeat (destruct H as [<-|H]; [nodup_strings|]).
  contradiction.
Qed.

(** The keys of the three providers are in every configuration. *)
Lemma api_key_of_canonical (environ central_env : gmap string string) (p : string) :
  List.In p canonical ->
  exists api_key, api_key_of (Env.get_config environ central_env) p = Ret api_key.
Proof.
  intros Hp. cbn in Hp. unfold api_key_of, Env.get_config, Env._KEY_NAMES.
  cbn [map list_to_map foldr uncurry fst snd].
  destruct Hp as [<-|[<-|[<-|[]]]].
  - change (PROVIDER_KEY_MAP !! "openai") with (Some "OPENAI_API_KEY"). cbv beta iota.
    rewrite lookup_insert_eq. eauto.
  - change (PROVIDER_KEY_MAP !! "perplexity") with (Some "PERPLEXITY_API_KEY"). cbv beta iota.
    rewrite lookup_insert_ne by discriminate. rewrite lookup_insert_eq. eauto.
  - change (PROVIDER_KEY_MAP !! "gemini") with (Some "GEMINI_API_KEY"). cbv beta iota.
    rewrite !lookup_insert_ne by discriminate. rewrite lookup_insert_eq. eauto.
Qed.

Lemma key_for_spec (w : world) (p : string) :
  List.In p canonical ->
  api_key_of (Env.get_config (environ w) (central_env w)) p = Ret (key_for w p).
Proof.
  intros Hp. unfold key_for.
  destruct (api_key_of_canonical (environ w) (central_env w) p Hp) as (k & ->).
  reflexivity.
Qed.

Lemma dispatch_canonical (w : world) (available : list string)
    (futures : list (string * option string)) :
  (forall p, List.In p available -> List.In p canonical) ->
  dispatch (Env.get_config (environ w) (central_env w)) available futures
  = (futures ++ map (fun p => (p, key_for w p)) available, None).
Proof.
  revert futures. induction available as [|p rest IH]; intros futures Hcan.
  - cbn. now rewrite List.app_nil_r.
  - cbn [dispatch map]. rewrite key_for_spec by (apply Hcan; now left).
    rewrite IH by (intros q Hq; apply Hcan; now right).
    now rewrite <- List.app_assoc.
Qed.

Lemma filter_none {A : Type} (f : A -> bool) (l : list A) :
  (forall x, List.In x l -> f x = false) -> List.filter f l = [].
Proof.
  induction l as [|x l IH]; intros H; [reflexivity|]. cbn [List.filter].
  rewrite (H x) by (now left). apply IH. intros y Hy. apply H. now right.
Qed.

Lemma filter_map_comm {A B : Type} (f : B -> bool) (c : A -> B) (l : list A) :
  List.filter f (map c l) = map c (List.filter (fun x => f (c x)) l).
Proof.
  induction l as [|x l IH]; [reflexivity|]. cbn [map List.filter].
  destruct (f (c x)); cbn [map]; now rewrite IH.
Qed.

(** When every future finishes before the deadline, the iteration yields each
    of them once and ends normally. *)
Lemma as_completed_in_time (names : list string) (done : list (string * Z))
    (timeout : Z) :
  List.NoDup names ->
  List.NoDup (map fst done) ->
  (forall p, List.In p names -> exists s, List.In (p, s) done /\ (s <= timeout)%Z) ->
  exists yielded,
    as_completed names done timeout = (yielded, None) /\ Permutation yielded names.
Proof.
  intros Hnames Hdone Hin. unfold as_completed.
  set (keep := fun c : string * Z => mem (fst c) names && Z.leb (snd c) timeout).
  set (yielded := map fst (List.filter keep done)).
  assert (Hiff : forall p, List.In p yielded <-> List.In p names).
  { intros p. subst yielded. rewrite List.in_map_iff. split.
    - intros ([q s] & <- & Hq). apply List.filter_In in Hq as [_ Hq].
      subst keep. cbn in Hq. apply andb_true_iff in Hq as [Hq _]. now apply mem_In.
    - intros Hp. destruct (Hin p Hp) as (s & Hs & Hle). exists (p, s).
      split; [reflexivity|]. apply List.filter_In. split; [assumption|].
      subst keep. cbn. apply andb_true_iff. split; [now apply mem_In|].
      now apply Z.leb_le. }
  exists yielded. split.
  - rewrite filter_none; [reflexivity|]. intros p Hp.
    apply negb_false_iff, mem_In, Hiff, Hp.
  - apply Permutation.NoDup_Permutation; [|assumption|assumption].
    subst yielded. now apply NoDup_map_filter.
Qed.

Lemma find_future (k : string -> option string) (available : list string) (p : string) :
  List.In p available ->
  mjoin (snd <$> find (fun f => String.eqb (fst f) p)
                      (map (fun q => (q, k q)) available)) = k p.
Proof.
  induction available as [|q rest IH]; [contradiction|]. intros Hp.
  cbn [map find fst]. destruct (String.eqb_spec q p) as [->|Hne]; [reflexivity|].
  apply IH. destruct Hp as [Hp|Hp]; [contradiction|assumption].
Qed.

Lemma modules_canonical (w : world) (p : string) :
  List.In p canonical -> exists module, PROVIDER_MODULES w !! p = Some module.
Proof.
  intros Hp. cbn in Hp. unfold PROVIDER_MODULES.
  cbn [list_to_map foldr uncurry fst snd].
  destruct Hp as [<-|[<-|[<-|[]]]].
  - rewrite lookup_insert_eq. eauto.
  - rewrite lookup_insert_ne by discriminate. rewrite lookup_insert_eq. eauto.
  - rewrite !lookup_insert_ne by discriminate. rewrite lookup_insert_eq. eauto.
Qed.

Lemma run_provider_canonical (w : world) (p : string) (topic : string) :
  List.In p canonical ->
  exists r, run_provider w p (key_for w p) topic = Ret r
            /\ provider r = p /\ reflects w topic r.
Proof.
  intros Hp. destruct (modules_canonical w p Hp) as (module & Hm).
  unfold run_provider.
  destruct (call_research w p (key_for w p) topic) as [[[rep cits] mdl]|e] eqn:Hcall.
  - eexists. split; [reflexivity|]. split; [reflexivity|].
    unfold reflects. cbn [provider]. rewrite Hcall. cbn. auto.
  - rewrite Hm. eexists. split; [reflexivity|]. split; [reflexivity|].
    unfold reflects. cbn [provider]. rewrite Hcall. cbn. auto.
Qed.

Lemma collect_one_canonical (w : world) (topic : string) (available : list string)
    (p : string) :
  List.In p available ->
  List.In p canonical ->
  let r := collect_one w topic (map (fun q => (q, key_for w q)) available) p in
  provider r = p /\ reflects w topic r.
Proof.
  intros Hav Hcan r. subst r. unfold collect_one.
  rewrite (find_future (key_for w) available p Hav).
  destruct (run_provider_canonical w p topic Hcan) as (r & -> & Hr). exact Hr.
Qed.

(** Sorting the results of an active-provider set, collected in any order,
    gives them in the order of the set. *)
Lemma sort_collected (c : string -> ProviderResult) (config : gmap string (option string))
    (yielded : list string) :
  let available := Env.get_available_providers config in
  (forall p, List.In p available -> provider (c p) = p) ->
  Permutation yielded available ->
  sort_results (map c yielded) = map c available.
Proof.
  intros available Hc Hperm.
  assert (Hnd : List.NoDup (map (fun p : string => p) yielded)).
  { rewrite List.map_id. apply (Permutation_NoDup (Permutation_sym Hperm)).
    apply available_NoDup. }
  assert (Hcy : forall p, List.In p yielded -> provider (c p) = p).
  { intros p Hp. apply Hc. now apply (Permutation_in _ Hperm). }
  rewrite sort_results_groups.
  destruct (with_key_by_name (map c yielded)) as (-> & -> & -> & ->).
  rewrite !filter_map_comm, <- !List.map_app. f_equal.
  assert (Hname : forall n,
            List.filter (fun p => String.eqb (provider (c p)) n) yielded
            = List.filter (fun p => String.eqb p n) available).
  { intros n.
    rewrite <- (filter_name_Permutation (fun p : string => p) n yielded available Hperm Hnd).
    apply List.filter_ext_in. intros p Hp. now rewrite Hcy. }
  rewrite !Hname.
  rewrite (filter_none (fun p => outside (c p)) yielded).
  2:{ intros p Hp. unfold outside. rewrite Hcy by assumption.
      apply negb_false_iff, mem_In. apply (available_canonical config).
      now apply (Permutation_in _ Hperm). }
  subst available. pose proof (available_cases config) as H. cbn in H.
  repeat (destruct H as [<-|H]; [reflexivity|]). contradiction.
Qed.

(** A live run whose providers all finish before the deadline: the result
    is the list of what [run_provider] gives for each active provider, in the
    order of the active-provider set. *)
Lemma main_live_in_time (w : world) (a : args) (t : string) :
  topic a = Some t -> t <> "" -> mock a = false ->
  let config := Env.get_config (environ w) (central_env w) in
  let available := Env.get_available_providers config in
  available <> [] ->
  List.NoDup (map fst (completions w)) ->
  (forall p, List.In p available ->
             exists s, List.In (p, s) (completions w) /\ (s <= timeout a)%Z) ->
  main w a
  = Run (Ret (map (collect_one w t (map (fun q => (q, key_for w q)) available))
                  available))
        available.
Proof.
  intros Ht Hne Hmock config available Hav Hnd Hin. subst config.
  unfold main. rewrite Ht, Hmock.
  apply String.eqb_neq in Hne. rewrite Hne.
  fold available.
  assert (Htruthy : truthy (PList (map PStr available)) = true)
    by (destruct available; [contradiction | reflexivity]).
  rewrite Htruthy. cbn [negb andb].
  unfold collect_live.
  rewrite (dispatch_canonical w available [])
    by (intros p Hp; now apply (available_canonical (Env.get_config (environ w) (central_env w)) p)).
  cbn [List.app]. rewrite List.map_map. cbn [fst]. rewrite List.map_id.
  destruct (as_completed_in_time available (completions w) (timeout a)
              (available_NoDup (Env.get_config (environ w) (central_env w))) Hnd Hin) as (yielded & -> & Hperm).
  cbn [bind]. f_equal. f_equal.
  apply (sort_collected _ (Env.get_config (environ w) (central_env w)) yielded);
    [|exact Hperm].
  intros p Hp. apply collect_one_canonical; [assumption|].
  now apply (available_canonical (Env.get_config (environ w) (central_env w)) p).
Qed.

(** C3: in a live run whose providers all finish before the deadline, every
    active provider has its outcome, in the order of the active-provider set;
    the outcome of a provider whose call raises is a failure that carries the
    type name and the message of the exception, and the outcome of a provider
    whose call returns is a success with what the call returned. *)
Theorem raising_provider_is_isolated (w : world) (a : args) (t : string) :
  topic a = Some t -> t <> "" -> mock a = false ->
  let available :=
    Env.get_available_providers (Env.get_config (environ w) (central_env w)) in
  available <> [] ->
  List.NoDup (map fst (completions w)) ->
  (forall p, List.In p available ->
             exists s, List.In (p, s) (completions w) /\ (s <= timeout a)%Z) ->
  exists results,
    outcome (main w a) = Ret results
    /\ map provider results = available
    /\ (forall r, List.In r results -> reflects w t r).
Proof.
  intros Ht Hne Hmock available Hav Hnd Hin.
  rewrite (main_live_in_time w a t Ht Hne Hmock Hav Hnd Hin). cbn [outcome].
  fold available. eexists. split; [reflexivity|].
  assert (Hone : forall p, List.In p available ->
            let r := collect_one w t (map (fun q => (q, key_for w q)) available) p in
            provider r = p /\ reflects w t r).
  { intros p Hp. apply collect_one_canonical; [assumption|].
    now apply (available_canonical (Env.get_config (environ w) (central_env w)) p). }
  split.
  - rewrite List.map_map.
    transitivity (map (fun p : string => p) available); [|apply List.map_id].
    apply List.map_ext_in. intros p Hp. apply Hone, Hp.
  - intros r Hr. apply List.in_map_iff in Hr as (p & <- & Hp). apply Hone, Hp.
Qed.

Lemma raising_provider_is_isolated_witness :
  exists a b c,
    outcome (main isolation_world live_args) = Ret [a; b; c]
    /\ map provider [a; b; c] = ["openai"; "perplexity"; "gemini"]
    /\ map success [a; b; c] = [PBool true; PBool false; PBool true]
    /\ error b = PStr "ValueError: boom".
Proof.
  assert (Hin : forall p,
            List.In p ["openai"; "perplexity"; "gemini"] ->
            exists s, List.In (p, s) (completions isolation_world) /\ (s <= 600)%Z).
  { intros p [<-|[<-|[<-|[]]]]; eexists; (split; [cbn; eauto|lia]). }
  destruct (raising_provider_is_isolated isolation_world live_args "topic"
              eq_refl ltac:(discriminate) eq_refl ltac:(discriminate)
              ltac:(cbn; nodup_strings) Hin) as (results & Hout & Hprov & Hrefl).
  destruct results as [|a [|b [|c [|d rest]]]]; try discriminate Hprov.
  injection Hprov as Ha Hb Hc.
  pose proof (Hrefl a (or_introl eq_refl)) as Ra.
  pose proof (Hrefl b (or_intror (or_introl eq_refl))) as Rb.
  pose proof (Hrefl c (or_intror (or_intror (or_introl eq_refl)))) as Rc.
  unfold reflects in Ra, Rb, Rc. rewrite Ha in Ra. rewrite Hb in Rb. rewrite Hc in Rc.
  set (ca := call_research _ _ _ _) in Ra. vm_compute in (value of ca).
  set (cb := call_research _ _ _ _) in Rb. vm_compute in (value of cb).
  set (cc := call_research _ _ _ _) in Rc. vm_compute in (value of cc).
  subst ca cb cc. cbv beta iota in Ra, Rb, Rc.
  destruct Ra as (Sa & _), Rb as (Sb & Eb), Rc as (Sc & _).
  exists a, b, c. cbn [map]. rewrite Ha, Hb, Hc, Sa, Sb, Sc.
  split; [exact Hout|]. split; [reflexivity|]. split; [reflexivity|exact Eb].
Defined.

(** When a dispatched provider is still outstanding at the deadline, the
    iteration over the completed futures raises and nothing catches it. *)
Lemma as_completed_pending (names : list string) (done : list (string * Z))
    (timeout : Z) (p : string) :
  List.In p names ->
  (forall s, List.In (p, s) done -> (timeout < s)%Z) ->
  exists yielded msg,
    as_completed names done timeout = (yielded, Some (Exc "TimeoutError" msg)).
Proof.
  intros Hp Hlate. unfold as_completed.
  set (yielded := map fst (List.filter _ done)).
  assert (Hny : ~ List.In p yielded).
  { subst yielded. intros Hy. apply List.in_map_iff in Hy as ([q s] & Hq & Hy).
    cbn in Hq. subst q. apply List.filter_In in Hy as [Hy Hk]. cbn in Hk.
    apply andb_true_iff in Hk as [_ Hk]. apply Z.leb_le in Hk.
    specialize (Hlate s Hy). lia. }
  destruct (List.filter (fun q => negb (mem q yielded)) names) as [|q pending] eqn:Hpend.
  - exfalso. assert (Hpin : List.In p (List.filter (fun q => negb (mem q yielded)) names)).
    { apply List.filter_In. split; [assumption|]. apply negb_true_iff.
      destruct (mem p yielded) eqn:Hm; [|reflexivity]. now apply mem_In in Hm. }
    rewrite Hpend in Hpin. contradiction.
  - eexists. eexists. reflexivity.
Qed.

Lemma main_live_past_deadline (w : world) (a : args) (t p : string) :
  topic a = Some t -> t <> "" -> mock a = false ->
  let available :=
    Env.get_available_providers (Env.get_config (environ w) (central_env w)) in
  List.In p available ->
  (forall s, List.In (p, s) (completions w) -> (timeout a < s)%Z) ->
  exists msg, main w a = Run (Raise (Exc "TimeoutError" msg)) available.
Proof.
  intros Ht Hne Hmock available Hp Hlate.
  unfold main. rewrite Ht, Hmock.
  apply String.eqb_neq in Hne. rewrite Hne.
  fold available.
  assert (Htruthy : truthy (PList (map PStr available)) = true)
    by (destruct available; [contradiction | reflexivity]).
  rewrite Htruthy. cbn [negb andb].
  unfold collect_live.
  rewrite (dispatch_canonical w available [])
    by (intros q Hq;
        now apply (available_canonical (Env.get_config (environ w) (central_env w)) q)).
  cbn [List.app]. rewrite List.map_map. cbn [fst]. rewrite List.map_id.
  destruct (as_completed_pending available (completions w) (timeout a) p Hp Hlate)
    as (yielded & msg & ->).
  exists msg. reflexivity.
Qed.

(** C1 at a failing input: two active providers, the second still polling
    at the deadline.  The run ends with the exception of the iteration; no
    outcome is produced, neither for the slow provider nor for the one that
    had finished. *)
Theorem timeout_discards_every_outcome :
  submitted (main slow_gemini_world live_args) = ["openai"; "gemini"]
  /\ outcome (main slow_gemini_world live_args)
     = Raise (Exc "TimeoutError" "1 (of 2) futures unfinished")
  /\ (forall results, outcome (main slow_gemini_world live_args) <> Ret results).
Proof.
  split; [reflexivity|]. split; [reflexivity|].
  intros results H. vm_compute in H. discriminate.
Qed.

(** C2 at a failing input: three active providers, one of them blocking
    until 900 seconds under a ceiling of 600.  The run records no timed-out
    outcome but ends with the exception, and the pool is left only when the
    blocked call has finished. *)
Theorem outstanding_provider_is_not_recorded :
  outcome (main slow_perplexity_world live_args)
  = Raise (Exc "TimeoutError" "1 (of 3) futures unfinished")
  /\ executor_released_at (submitted (main slow_perplexity_world live_args))
       (completions slow_perplexity_world) = Some 900%Z
  /\ (timeout live_args < 900)%Z.
Proof.
  split; [reflexivity|]. split; [reflexivity|]. reflexivity.
Qed.

(** *** A mock run *)

(** A provider whose fixture file is absent gets the failed result, whatever
    the other files hold. *)
Lemma mock_result_missing (w : world) (p file : string) :
  fixture_map !! p = Some file ->
  fixtures w file = None ->
  mock_result w p = Ret (failed_result w p ("Fixture not found: " +:+ file)).
Proof.
  intros Hfile Habs. unfold mock_result, load_fixture.
  rewrite Hfile. change (default "" (Some file)) with file.
  rewrite Habs. reflexivity.
Qed.

Lemma mock_result_total (w : world) (p : string) :
  (forall name, fixtures w name = None
                \/ exists d, fixtures w name = Some (Ret (PDict d))) ->
  exists r,
    mock_result w p = Ret r
    /\ provider r = p
    /\ (forall file, fixture_map !! p = Some file -> fixtures w file = None ->
                     success r = PBool false
                     /\ error r = PStr ("Fixture not found: " +:+ file)).
Proof.
  intros Hfs. unfold mock_result, load_fixture.
  destruct (Hfs (default "" (fixture_map !! p))) as [Hnone | (d & Hd)].
  - rewrite Hnone. cbn [bind truthy]. eexists. split; [reflexivity|].
    split; [reflexivity|]. intros file Hfile _. rewrite Hfile. cbn. auto.
  - rewrite Hd. cbn [bind]. destruct d as [|kv d].
    + cbn [truthy]. eexists. split; [reflexivity|]. split; [reflexivity|].
      intros file Hfile Habs. rewrite Hfile in Hd. cbn in Hd. congruence.
    + cbn [truthy get bind]. eexists. split; [reflexivity|]. split; [reflexivity|].
      intros file Hfile Habs. rewrite Hfile in Hd. cbn in Hd. congruence.
Qed.

Lemma sort_canonical_triple (r1 r2 r3 : ProviderResult) :
  provider r1 = "openai" -> provider r2 = "perplexity" -> provider r3 = "gemini" ->
  sort_results [r1; r2; r3] = [r1; r2; r3].
Proof.
  intros H1 H2 H3.
  assert (K1 : sort_key r1 = 0) by (rewrite sort_key_name, H1; reflexivity).
  assert (K2 : sort_key r2 = 1) by (rewrite sort_key_name, H2; reflexivity).
  assert (K3 : sort_key r3 = 2) by (rewrite sort_key_name, H3; reflexivity).
  unfold sort_results. cbn [fold_right insert_sorted].
  rewrite K2, K3. cbn [Nat.leb insert_sorted]. rewrite K1, K2. reflexivity.
Qed.

(** C9: in mock mode, with fixture files that are absent or hold a JSON
    object, the run returns one outcome for each of the three providers and
    does not raise; a provider whose fixture file is absent gets a failed
    outcome whose error names the missing fixture; no call is submitted to
    the pool, and the run does not depend on the provider modules, on the
    Gemini service or on the timing. *)
Theorem missing_fixture_gives_failed_outcome (w : world) (a : args) (t : string) :
  topic a = Some t -> t <> "" -> mock a = true ->
  (forall name, fixtures w name = None
                \/ exists d, fixtures w name = Some (Ret (PDict d))) ->
  exists r1 r2 r3,
    outcome (main w a) = Ret [r1; r2; r3]
    /\ map provider [r1; r2; r3] = ["openai"; "perplexity"; "gemini"]
    /\ (forall r file,
          List.In r [r1; r2; r3] ->
          fixture_map !! provider r = Some file ->
          fixtures w file = None ->
          success r = PBool false
          /\ error r = PStr ("Fixture not found: " +:+ file))
    /\ submitted (main w a) = []
    /\ (forall o p g rp el done,
          main (World (environ w) (central_env w) (fixtures w) o p g rp el done
                      (defaults w)) a
          = main w a).
Proof.
  intros Ht Hne Hmock Hfs.
  apply String.eqb_neq in Hne.
  destruct (mock_result_total w "openai" Hfs) as (r1 & Hr1 & Hp1 & Hm1).
  destruct (mock_result_total w "perplexity" Hfs) as (r2 & Hr2 & Hp2 & Hm2).
  destruct (mock_result_total w "gemini" Hfs) as (r3 & Hr3 & Hp3 & Hm3).
  assert (Hmain : main w a = Run (Ret [r1; r2; r3]) []).
  { unfold main. rewrite Ht, Hmock, Hne. cbn [map truthy negb andb].
    unfold run_mock. cbn [run_mock_loop]. rewrite Hr1. cbn [bind run_mock_loop].
    rewrite Hr2. cbn [bind run_mock_loop]. rewrite Hr3. cbn [bind run_mock_loop List.app].
    now rewrite sort_canonical_triple. }
  exists r1, r2, r3. rewrite Hmain. cbn [outcome submitted map].
  split; [reflexivity|]. split; [now rewrite Hp1, Hp2, Hp3|].
  split; [|split; [reflexivity|]].
  - intros r file [<-|[<-|[<-|[]]]] Hfile Habs.
    + rewrite Hp1 in Hfile. now apply Hm1.
    + rewrite Hp2 in Hfile. now apply Hm2.
    + rewrite Hp3 in Hfile. now apply Hm3.
  - intros o p g rp el done. rewrite <- Hmain.
    unfold main. rewrite Ht, Hmock, Hne. reflexivity.
Qed.

Lemma missing_fixture_gives_failed_outcome_witness :
  exists r1 r2 r3,
    outcome (main slow_gemini_world mock_args) = Ret [r1; r2; r3]
    /\ map provider [r1; r2; r3] = ["openai"; "perplexity"; "gemini"]
    /\ error r3 = PStr "Fixture not found: gemini_sample.json".
Proof.
  destruct (missing_fixture_gives_failed_outcome slow_gemini_world mock_args "topic"
              eq_refl ltac:(discriminate) eq_refl ltac:(intros name; left; reflexivity))
    as (r1 & r2 & r3 & Hout & Hprov & Hmiss & _).
  exists r1, r2, r3. split; [exact Hout|]. split; [exact Hprov|].
  injection Hprov as _ _ H3.
  apply (Hmiss r3 "gemini_sample.json"); [cbn; auto | now rewrite H3 | reflexivity].
Defined.

End DeepResearchFacts.

(** ** The key file *)

Module KeychainFacts.

Import Keychain.

Lemma rstrip_length (s : string) : String.length (rstrip s) <= String.length s.
Proof.
  induction s as [|c s IH]; [reflexivity|]. cbn [rstrip].
  destruct (rstrip s) as [|d kept]; [destruct (is_space c)|]; cbn in *; lia.
Qed.

Lemma lstrip_length (s : string) : String.length (lstrip s) <= String.length s.
Proof.
  induction s as [|c s IH]; [reflexivity|]. cbn [lstrip].
  destruct (is_space c); cbn in *; lia.
Qed.

Lemma last_char_Some (c : ascii) (s : string) :
  exists d, Gemini.last_char (String c s) = Some d.
Proof.
  revert c. induction s as [|d s IH]; intros c; [now exists c|].
  destruct (IH d) as (x & Hx). exists x. exact Hx.
Qed.

Lemma last_char_cons (c : ascii) (s : string) :
  Gemini.last_char (String c s)
  = match Gemini.last_char s with Some d => Some d | None => Some c end.
Proof.
  destruct s as [|d s]; [reflexivity|].
  destruct (last_char_Some d s) as (x & Hx).
  change (Gemini.last_char (String c (String d s)))
    with (Gemini.last_char (String d s)).
  now rewrite Hx.
Qed.

Lemma last_char_None (s : string) : Gemini.last_char s = None -> s = "".
Proof.
  destruct s as [|c s]; [reflexivity|]. rewrite last_char_cons.
  now destruct (Gemini.last_char s).
Qed.

Lemma lstrip_head_ok (s : string) : head_ok (lstrip s).
Proof.
  induction s as [|c s IH]; [exact I|]. cbn [lstrip].
  destruct (is_space c) eqn:Hc; [exact IH | exact Hc].
Qed.

Lemma lstrip_id (s : string) : head_ok s -> lstrip s = s.
Proof. destruct s as [|c s]; [reflexivity|]. cbn. now intros ->. Qed.

Lemma rstrip_last_ok (s : string) : last_ok (rstrip s).
Proof.
  unfold last_ok. induction s as [|c s IH]; [exact I|]. cbn [rstrip].
  destruct (rstrip s) as [|d kept] eqn:Hr.
  - destruct (is_space c) eqn:Hc; [exact I | exact Hc].
  - change (Gemini.last_char (String c (String d kept)))
      with (Gemini.last_char (String d kept)).
    exact IH.
Qed.

Lemma rstrip_id (s : string) : last_ok s -> rstrip s = s.
Proof.
  unfold last_ok. induction s as [|c s IH]; [reflexivity|].
  rewrite last_char_cons. cbn [rstrip].
  destruct (Gemini.last_char s) as [d|] eqn:Hl.
  - intros Hd. rewrite (IH Hd). destruct s; [discriminate | reflexivity].
  - intros Hc. apply last_char_None in Hl. subst s. cbn. now rewrite Hc.
Qed.

Lemma rstrip_head_ok (s : string) : head_ok s -> head_ok (rstrip s).
Proof.
  destruct s as [|c s]; [trivial|]. cbn [head_ok rstrip]. intros Hc.
  destruct (rstrip s); [rewrite Hc|]; exact Hc.
Qed.

(** Stripping keeps the head of a string that does not start with a space. *)
Lemma rstrip_keeps_head (c : ascii) (s : string) :
  is_space c = false -> exists kept, rstrip (String c s) = String c kept.
Proof.
  intros Hc. cbn [rstrip]. destruct (rstrip s); [rewrite Hc|]; eauto.
Qed.

Lemma strip_head_ok (s : string) : head_ok (strip s).
Proof. apply rstrip_head_ok, lstrip_head_ok. Qed.

Lemma strip_last_ok (s : string) : last_ok (strip s).
Proof. apply rstrip_last_ok. Qed.

Lemma strip_id (s : string) : head_ok s -> last_ok s -> strip s = s.
Proof. intros Hh Hl. unfold strip. rewrite (lstrip_id s Hh). now apply rstrip_id. Qed.

Lemma strip_idempotent (s : string) : strip (strip s) = strip s.
Proof. apply strip_id; [apply strip_head_ok | apply strip_last_ok]. Qed.

Lemma strip_fixed (s : string) : strip s = s -> head_ok s /\ last_ok s.
Proof. intros <-. split; [apply strip_head_ok | apply strip_last_ok]. Qed.

Lemma lstrip_has_equals (s : string) :
  has_equals s = false -> has_equals (lstrip s) = false.
Proof.
  induction s as [|c s IH]; [trivial|]. cbn [lstrip has_equals].
  intros H. apply orb_false_iff in H as [Hc Hs].
  destruct (is_space c); [auto|]. cbn [has_equals]. now rewrite Hc, Hs.
Qed.

Lemma rstrip_has_equals (s : string) :
  has_equals s = false -> has_equals (rstrip s) = false.
Proof.
  induction s as [|c s IH]; [trivial|]. cbn [rstrip has_equals].
  intros H. apply orb_false_iff in H as [Hc Hs]. specialize (IH Hs).
  destruct (rstrip s) as [|d kept].
  - destruct (is_space c); [reflexivity|]. cbn. now rewrite Hc.
  - cbn [has_equals] in *. now rewrite Hc, IH.
Qed.

Lemma strip_has_equals (s : string) :
  has_equals s = false -> has_equals (strip s) = false.
Proof. intros H. now apply rstrip_has_equals, lstrip_has_equals. Qed.

Lemma partition_before_no_equals (s : string) :
  has_equals (fst (partition_equals s)) = false.
Proof.
  induction s as [|c s IH]; [reflexivity|]. cbn [partition_equals].
  destruct (Ascii.eqb c "=") eqn:Hc; [reflexivity|].
  destruct (partition_equals s) as [before behind]. cbn in *. now rewrite Hc, IH.
Qed.

Lemma partition_app (k rest : string) :
  has_equals k = false ->
  partition_equals (k +:+ String "=" rest) = (k, rest).
Proof.
  induction k as [|c k IH]; [reflexivity|]. cbn [has_equals]. intros H.
  apply orb_false_iff in H as [Hc Hk]. change (String c k +:+ String "=" rest) with (String c (k +:+ String "=" rest)).
  cbn [partition_equals].
  rewrite Hc, (IH Hk). reflexivity.
Qed.

(** What a line assigns has the shape of a key and a value that is not
    empty. *)
Lemma parse_line_shape (raw key value : string) :
  parse_line raw = Some (key, value) -> key_shaped key /\ value <> "".
Proof.
  unfold parse_line. set (line := strip raw).
  destruct (String.eqb line "" || is_comment line) eqn:Hskip; [discriminate|].
  apply orb_false_iff in Hskip as [Hempty Hcomment].
  destruct (has_equals line) eqn:Heq; [|discriminate].
  destruct (partition_equals line) as [before behind] eqn:Hpart.
  destruct (negb (String.eqb (strip before) "")
            && negb (String.eqb (unquote (strip behind)) "")) eqn:Hboth;
    [|discriminate].
  intros H. injection H as <- <-.
  apply andb_true_iff in Hboth as [Hk Hv].
  apply negb_true_iff, String.eqb_neq in Hk, Hv.
  split; [|exact Hv]. unfold key_shaped.
  split; [exact Hk|]. split; [apply strip_idempotent|].
  assert (Hb : before = fst (partition_equals line)) by now rewrite Hpart.
  split.
  - apply strip_has_equals. rewrite Hb. apply partition_before_no_equals.
  - pose proof (strip_head_ok raw) as Hhead. fold line in Hhead.
    destruct line as [|c rest]; [discriminate|].
    cbn [head_ok is_comment] in Hhead, Hcomment.
    cbn [partition_equals] in Hpart.
    destruct (Ascii.eqb c "="); [injection Hpart as <- _; contradiction|].
    destruct (partition_equals rest) as [b1 b2]. injection Hpart as <- _.
    unfold strip. rewrite (lstrip_id (String c b1)) by exact Hhead.
    destruct (rstrip_keeps_head c b1 Hhead) as (kept & ->). exact Hcomment.
Qed.

(** Reading lines keeps the shape of the entries. *)
Lemma fold_assign_shape (lines : list string) (env : gmap string string) :
  (forall k v, env !! k = Some v -> key_shaped k /\ v <> "") ->
  forall k v, fold_left assign lines env !! k = Some v -> key_shaped k /\ v <> "".
Proof.
  revert env. induction lines as [|raw lines IH]; intros env Henv; [exact Henv|].
  cbn [fold_left]. apply IH. intros k v. unfold assign.
  destruct (parse_line raw) as [[k0 v0]|] eqn:Hparse; [|apply Henv].
  destruct (decide (k0 = k)) as [->|Hne].
  - rewrite lookup_insert_eq. intros [= <-]. now apply (parse_line_shape raw).
  - rewrite lookup_insert_ne by exact Hne. apply Henv.
Qed.

Lemma load_env_file_value (file : option (list string)) (key value : string) :
  load_env_file file !! key = Some value -> value <> "".
Proof.
  destruct file as [lines|]; cbn [load_env_file]; [|now rewrite lookup_empty].
  intros H. refine (proj2 (fold_assign_shape lines ∅ _ key value H)).
  intros k v. now rewrite lookup_empty.
Qed.

(** X1: every entry that [load_env_file] returns has a key that is not
    empty, has no space around it, holds no [=] and does not start with [#],
    and a value that is not empty; an absent file gives no entry. *)
Theorem load_env_file_entries (file : option (list string)) (key value : string) :
  load_env_file file !! key = Some value ->
  key_shaped key /\ value <> "" /\ file <> None.
Proof.
  destruct file as [lines|]; cbn [load_env_file]; [|now rewrite lookup_empty].
  intros H. assert (Hempty : forall k v, (∅ : gmap string string) !! k = Some v ->
                                         key_shaped k /\ v <> "").
  { intros k v. now rewrite lookup_empty. }
  destruct (fold_assign_shape lines ∅ Hempty key value H) as [Hk Hv].
  split; [exact Hk|]. split; [exact Hv | discriminate].
Qed.

Lemma load_env_file_entries_witness :
  key_shaped "OPENAI_API_KEY" /\ "sk-1" <> "".
Proof.
  destruct (load_env_file_entries (Some ["# keys"; " OPENAI_API_KEY = 'sk-1' "])
              "OPENAI_API_KEY" "sk-1" eq_refl) as (Hk & Hv & _).
  split; [exact Hk | exact Hv].
Defined.

Lemma parse_line_ignored (raw : string) :
  strip raw = "" \/ is_comment (strip raw) = true \/ has_equals raw = false ->
  parse_line raw = None.
Proof.
  unfold parse_line. intros [H|[H|H]].
  - now rewrite H.
  - rewrite H. now rewrite orb_true_r.
  - rewrite (strip_has_equals raw H). now destruct (_ || _).
Qed.

(** X2: a blank line, a comment line or a line without [=] changes nothing,
    wherever it stands in the file. *)
Theorem ignored_lines_change_nothing (pre post : list string) (raw : string) :
  strip raw = "" \/ is_comment (strip raw) = true \/ has_equals raw = false ->
  load_env_file (Some (pre ++ raw :: post)) = load_env_file (Some (pre ++ post)).
Proof.
  intros H. cbn [load_env_file]. rewrite !List.fold_left_app. cbn [fold_left].
  assert (Hraw : forall env, assign env raw = env)
    by (intros env; unfold assign; now rewrite (parse_line_ignored raw H)).
  now rewrite Hraw.
Qed.

Lemma ignored_lines_change_nothing_witness :
  load_env_file (Some (["A=1"] ++ "  # B=2" :: ["C=3"]))
  = load_env_file (Some (["A=1"] ++ ["C=3"])).
Proof.
  apply ignored_lines_change_nothing. right. left. reflexivity.
Defined.

Lemma fold_assign_other (lines : list string) (env1 env2 : gmap string string)
    (k : string) :
  env1 !! k = env2 !! k ->
  fold_left assign lines env1 !! k = fold_left assign lines env2 !! k.
Proof.
  revert env1 env2. induction lines as [|raw lines IH]; intros env1 env2 H; [exact H|].
  cbn [fold_left]. apply IH. unfold assign.
  destruct (parse_line raw) as [[k0 v0]|]; [|exact H].
  destruct (decide (k0 = k)) as [->|Hne].
  - now rewrite !lookup_insert_eq.
  - now rewrite !lookup_insert_ne by exact Hne.
Qed.

Lemma fold_assign_kept (lines : list string) (env : gmap string string)
    (k : string) :
  (forall r, List.In r lines -> fst <$> parse_line r <> Some k) ->
  fold_left assign lines env !! k = env !! k.
Proof.
  revert env. induction lines as [|raw lines IH]; intros env H; [reflexivity|].
  cbn [fold_left]. rewrite IH by (intros r Hr; apply H; now right).
  unfold assign. specialize (H raw (or_introl eq_refl)).
  destruct (parse_line raw) as [[k0 v0]|]; [|reflexivity].
  apply lookup_insert_ne. intros ->. now apply H.
Qed.

(** X3: the value of a key is the one of the last line that assigns it, and
    a line changes the value of no other key. *)
Theorem last_assignment_wins (pre post : list string) (raw key value : string) :
  parse_line raw = Some (key, value) ->
  (forall r, List.In r post -> fst <$> parse_line r <> Some key) ->
  load_env_file (Some (pre ++ raw :: post)) !! key = Some value
  /\ (forall k, k <> key ->
        load_env_file (Some (pre ++ raw :: post)) !! k
        = load_env_file (Some (pre ++ post)) !! k).
Proof.
  intros Hparse Hpost. cbn [load_env_file]. rewrite !List.fold_left_app.
  cbn [fold_left].
  assert (Hraw : forall env, assign env raw = <[key := value]> env)
    by (intros env; unfold assign; now rewrite Hparse).
  rewrite Hraw. split.
  - rewrite fold_assign_kept by exact Hpost. apply lookup_insert_eq.
  - intros k Hk. apply fold_assign_other. apply lookup_insert_ne. congruence.
Qed.

Lemma last_assignment_wins_witness :
  load_env_file (Some (["A=1"; "B=2"] ++ "A = 3" :: ["C=4"])) !! "A" = Some "3".
Proof.
  refine (proj1 (last_assignment_wins ["A=1"; "B=2"] ["C=4"] "A = 3" "A" "3"
                   eq_refl _)).
  intros r [<-|[]]. discriminate.
Defined.

Lemma key_shaped_ends (key : string) :
  key_shaped key ->
  exists c rest, key = String c rest /\ is_space c = false
                 /\ Ascii.eqb c "#" = false /\ Ascii.eqb c "=" = false
                 /\ last_ok key.
Proof.
  intros (Hne & Hstrip & Heq & Hcom).
  destruct (strip_fixed key Hstrip) as [Hhead Hlast].
  destruct key as [|c rest]; [contradiction|]. exists c, rest.
  cbn in Hhead, Hcom, Heq. apply orb_false_iff in Heq as [Heq _].
  repeat split; assumption.
Qed.

Lemma last_char_app (s : string) (c : ascii) :
  Gemini.last_char (s +:+ String c "") = Some c.
Proof.
  induction s as [|d s IH]; [reflexivity|].
  change (String d s +:+ String c "") with (String d (s +:+ String c "")).
  now rewrite last_char_cons, IH.
Qed.

Lemma last_char_append (s t : string) :
  t <> "" -> Gemini.last_char (s +:+ t) = Gemini.last_char t.
Proof.
  intros Ht. induction s as [|d s IH]; [reflexivity|].
  change (String d s +:+ t) with (String d (s +:+ t)).
  rewrite last_char_cons, IH. destruct t as [|e t]; [contradiction|].
  destruct (last_char_Some e t) as (x & ->). reflexivity.
Qed.

Lemma drop_last_app (s : string) (c : ascii) : drop_last (s +:+ String c "") = s.
Proof.
  induction s as [|d s IH]; [reflexivity|].
  change (String d s +:+ String c "") with (String d (s +:+ String c "")).
  cbn [drop_last]. rewrite IH.
  destruct s; reflexivity.
Qed.

Lemma has_equals_app (k rest : string) :
  has_equals (k +:+ String "=" rest) = true.
Proof.
  induction k as [|c k IH]; [reflexivity|].
  change (String c k +:+ String "=" rest) with (String c (k +:+ String "=" rest)).
  cbn [has_equals]. rewrite IH. apply orb_true_r.
Qed.

(** Reading a line [key=text] whose text has no space around it. *)
Lemma parse_line_assignment (key text : string) :
  key_shaped key -> text <> "" -> head_ok text -> last_ok text ->
  parse_line (key +:+ String "=" text)
  = if String.eqb (unquote text) "" then None else Some (key, unquote text).
Proof.
  intros Hkey Htext Hhead Hlast.
  destruct (key_shaped_ends key Hkey) as (c & rest & -> & Hc & Hhash & Heq & Hklast).
  destruct Hkey as (_ & Hstrip & Hnoeq & _).
  unfold parse_line.
  assert (Hline : strip (String c rest +:+ String "=" text)
                  = String c rest +:+ String "=" text).
  { apply strip_id; [exact Hc|]. unfold last_ok.
    rewrite last_char_append by discriminate. rewrite last_char_cons.
    unfold last_ok in Hlast. destruct (Gemini.last_char text) as [d|] eqn:Hl;
      [exact Hlast|]. apply last_char_None in Hl. contradiction. }
  rewrite Hline, has_equals_app, (partition_app _ _ Hnoeq).
  change (String c rest +:+ String "=" text)
    with (String c (rest +:+ String "=" text)).
  cbn [String.eqb is_comment orb]. rewrite Hhash.
  rewrite Hstrip, (strip_id text Hhead Hlast). cbn [String.eqb negb andb].
  now destruct (String.eqb (unquote text) "").
Qed.

(** X4: a value between a pair of double or single quotes is read without
    the quotes, whatever it holds; a value without quotes is read as it is. *)
Theorem quoted_value_round_trip (key value : string) :
  key_shaped key -> value <> "" ->
  parse_line (key +:+ String "=" (String double_quote (value +:+ String double_quote "")))
  = Some (key, value)
  /\ parse_line (key +:+ String "=" (String single_quote (value +:+ String single_quote "")))
     = Some (key, value)
  /\ (strip value = value -> unquote value = value ->
      parse_line (key +:+ String "=" value) = Some (key, value)).
Proof.
  intros Hkey Hvalue.
  assert (Hq : forall q,
            q = double_quote \/ q = single_quote ->
            parse_line (key +:+ String "=" (String q (value +:+ String q "")))
            = Some (key, value)).
  { intros q Hq.
    assert (Hsp : is_space q = false) by (destruct Hq as [->| ->]; reflexivity).
    rewrite parse_line_assignment; [|exact Hkey|discriminate|exact Hsp|].
    2:{ unfold last_ok. rewrite last_char_cons, last_char_app. exact Hsp. }
    assert (Hun : unquote (String q (value +:+ String q "")) = value).
    { unfold unquote. rewrite last_char_cons, last_char_app, Ascii.eqb_refl.
      rewrite drop_last_app.
      destruct Hq as [->| ->]; reflexivity. }
    rewrite Hun. apply String.eqb_neq in Hvalue. now rewrite Hvalue. }
  split; [apply Hq; now left|]. split; [apply Hq; now right|].
  intros Hstrip Hun. destruct (strip_fixed value Hstrip) as [Hh Hl].
  rewrite parse_line_assignment by assumption.
  rewrite Hun. apply String.eqb_neq in Hvalue. now rewrite Hvalue.
Qed.

Lemma quoted_value_round_trip_witness :
  parse_line "GEMINI_API_KEY=' a b '" = Some ("GEMINI_API_KEY", " a b ").
Proof.
  refine (proj1 (proj2 (quoted_value_round_trip "GEMINI_API_KEY" " a b " _ _))).
  - repeat split; [discriminate|..]; reflexivity.
  - discriminate.
Defined.

End KeychainFacts.

(** ** Credentials *)

Module EnvFacts.

Import Keychain Env.

Lemma get_keys_lookup (environ : gmap string string) (file : option (list string))
    (names : list string) (name : string) :
  get_keys environ file names !! name
  = if bool_decide (name ∈ names) then Some (get_key environ file name) else None.
Proof.
  unfold get_keys, get_key. induction names as [|n names IH].
  - cbn. apply lookup_empty.
  - cbn [map list_to_map foldr uncurry fst snd] in *.
    destruct (decide (n = name)) as [->|Hne].
    + rewrite lookup_insert_eq. rewrite bool_decide_eq_true_2 by apply list_elem_of_here.
      reflexivity.
    + rewrite lookup_insert_ne by exact Hne. rewrite IH.
      apply (f_equal (fun b : bool => if b then _ else _)).
      apply bool_decide_ext. rewrite elem_of_cons. intuition congruence.
Qed.

(** X5: [get_keys] holds for each requested name what [get_key] gives for
    it, holds nothing for a name that was not requested, and the
    configuration of the research script is [get_keys] at its three names. *)
Theorem get_keys_agrees_with_get_key (environ : gmap string string)
    (file : option (list string)) (names : list string) (name : string) :
  (List.In name names ->
   get_keys environ file names !! name = Some (get_key environ file name))
  /\ (~ List.In name names -> get_keys environ file names !! name = None)
  /\ get_config environ (load_env_file file) = get_keys environ file _KEY_NAMES.
Proof.
  rewrite get_keys_lookup. split; [|split].
  - intros H. now rewrite bool_decide_eq_true_2 by (now apply list_elem_of_In).
  - intros H. now rewrite bool_decide_eq_false_2 by (now rewrite list_elem_of_In).
  - reflexivity.
Qed.

Lemma get_config_lookup (environ file : gmap string string) (key : string) :
  get_config environ file !! key
  = if bool_decide (key ∈ _KEY_NAMES)
    then Some (or_else (environ !! key) (file !! key)) else None.
Proof.
  unfold get_config. induction _KEY_NAMES as [|n names IH].
  - cbn. apply lookup_empty.
  - cbn [map list_to_map foldr uncurry fst snd] in *.
    destruct (decide (n = key)) as [->|Hne].
    + rewrite lookup_insert_eq. rewrite bool_decide_eq_true_2 by apply list_elem_of_here.
      reflexivity.
    + rewrite lookup_insert_ne by exact Hne. rewrite IH.
      apply (f_equal (fun b : bool => if b then _ else _)).
      apply bool_decide_ext. rewrite elem_of_cons. intuition congruence.
Qed.

(** X6: for each of the three keys, a value of the environment that is not
    empty wins over the key file; an environment variable that is unset or
    set to the empty string leaves the value of the key file, if any; no
    other key is in the configuration. *)
Theorem environment_overrides_key_file (environ file : gmap string string)
    (key : string) :
  (List.In key _KEY_NAMES ->
   (forall s, environ !! key = Some s -> s <> "" ->
              get_config environ file !! key = Some (Some s))
   /\ (environ !! key = None \/ environ !! key = Some "" ->
       get_config environ file !! key = Some (file !! key)))
  /\ (~ List.In key _KEY_NAMES -> get_config environ file !! key = None).
Proof.
  rewrite get_config_lookup. split.
  - intros H. rewrite bool_decide_eq_true_2 by (now apply list_elem_of_In). split.
    + intros s -> Hs. cbn. apply String.eqb_neq in Hs. now rewrite Hs.
    + intros [-> | ->]; reflexivity.
  - intros H. now rewrite bool_decide_eq_false_2 by (now rewrite list_elem_of_In).
Qed.

Lemma configured_iff (environ : gmap string string) (file : option (list string))
    (key : string) :
  List.In key _KEY_NAMES ->
  configured (get_config environ (load_env_file file)) key = true
  <-> (exists s, environ !! key = Some s /\ s <> "")
      \/ is_Some (load_env_file file !! key).
Proof.
  intros Hkey. unfold configured. rewrite get_config_lookup.
  rewrite bool_decide_eq_true_2 by (now apply list_elem_of_In).
  assert (Hfile : forall v, load_env_file file !! key = Some v -> v <> "").
  { intros v Hv. now apply (KeychainFacts.load_env_file_value file key v). }
  destruct (environ !! key) as [s|] eqn:He; cbn [or_else].
  - destruct (String.eqb_spec s "") as [->|Hs].
    + destruct (load_env_file file !! key) as [v|] eqn:Hv.
      * specialize (Hfile v eq_refl). apply String.eqb_neq in Hfile. rewrite Hfile.
        cbn. split; [intros _; right; eauto | reflexivity].
      * split; [discriminate|]. intros [(s & [= <-] & Hs)|[v Hv']];
          [contradiction | discriminate].
    + apply String.eqb_neq in Hs. rewrite Hs. cbn.
      split; [intros _; left; exists s; split; [reflexivity|]|reflexivity].
      now apply String.eqb_neq.
  - destruct (load_env_file file !! key) as [v|] eqn:Hv.
    + specialize (Hfile v eq_refl). apply String.eqb_neq in Hfile. rewrite Hfile.
      cbn. split; [intros _; right; eauto | reflexivity].
    + split; [discriminate|]. intros [(s & [=] & _)|[v Hv']]; discriminate.
Qed.

Lemma key_map_cases (p key : string) :
  DeepResearch.PROVIDER_KEY_MAP !! p = Some key ->
  (p = "openai" /\ key = "OPENAI_API_KEY")
  \/ (p = "perplexity" /\ key = "PERPLEXITY_API_KEY")
  \/ (p = "gemini" /\ key = "GEMINI_API_KEY").
Proof.
  unfold DeepResearch.PROVIDER_KEY_MAP. cbn [list_to_map foldr uncurry fst snd].
  destruct (decide (p = "openai")) as [->|H1].
  { rewrite lookup_insert_eq. intros [= <-]. auto. }
  rewrite lookup_insert_ne by congruence.
  destruct (decide (p = "perplexity")) as [->|H2].
  { rewrite lookup_insert_eq. intros [= <-]. auto. }
  rewrite lookup_insert_ne by congruence.
  destruct (decide (p = "gemini")) as [->|H3].
  { rewrite lookup_insert_eq. intros [= <-]. auto. }
  rewrite lookup_insert_ne by congruence. now rewrite lookup_empty.
Qed.

Lemma available_iff_configured (config : gmap string (option string)) :
  (List.In "openai" (get_available_providers config)
   <-> configured config "OPENAI_API_KEY" = true)
  /\ (List.In "perplexity" (get_available_providers config)
      <-> configured config "PERPLEXITY_API_KEY" = true)
  /\ (List.In "gemini" (get_available_providers config)
      <-> configured config "GEMINI_API_KEY" = true).
Proof.
  unfold get_available_providers.
  destruct (configured config "OPENAI_API_KEY"),
           (configured config "PERPLEXITY_API_KEY"),
           (configured config "GEMINI_API_KEY"); cbn;
    repeat split; intros; try discriminate; intuition discriminate.
Qed.

(** X7: the active providers are a sublist of openai, perplexity, gemini,
    in that order; a provider is among them exactly when the key that
    [PROVIDER_KEY_MAP] names for it is set to a value that is not empty in the
    environment, or is assigned in the key file. *)
Theorem active_providers_characterised (environ : gmap string string)
    (file : option (list string)) :
  let available := get_available_providers (get_config environ (load_env_file file)) in
  sublist available ["openai"; "perplexity"; "gemini"]
  /\ (forall p key,
        DeepResearch.PROVIDER_KEY_MAP !! p = Some key ->
        (List.In p available
         <-> (exists s, environ !! key = Some s /\ s <> "")
             \/ is_Some (load_env_file file !! key))).
Proof.
  intros available. split.
  - subst available. unfold get_available_providers.
    destruct (configured _ "OPENAI_API_KEY"), (configured _ "PERPLEXITY_API_KEY"),
             (configured _ "GEMINI_API_KEY"); cbn;
      repeat first [apply sublist_nil | apply sublist_skip | apply sublist_cons].
  - intros p key Hkey. subst available.
    destruct (available_iff_configured (get_config environ (load_env_file file)))
      as (Ho & Hp & Hg).
    destruct (key_map_cases p key Hkey) as [[-> ->]|[[-> ->]|[-> ->]]].
    + rewrite Ho. apply configured_iff. cbn. auto.
    + rewrite Hp. apply configured_iff. cbn. auto.
    + rewrite Hg. apply configured_iff. cbn. auto.
Qed.

End EnvFacts.

(** ** The Gemini client, further *)

Module GeminiMore.

Import Gemini GeminiNotions Samples.

Lemma append_cons (c : ascii) (s t : string) : String c s +:+ t = String c (s +:+ t).
Proof. reflexivity. Qed.

Lemma append_assoc (s t u : string) : (s +:+ t) +:+ u = s +:+ (t +:+ u).
Proof.
  induction s as [|c s IH]; [reflexivity|]. now rewrite !append_cons, IH.
Qed.

Lemma length_append (s t : string) :
  String.length (s +:+ t) = String.length s + String.length t.
Proof.
  induction s as [|c s IH]; [reflexivity|]. rewrite append_cons. cbn. now rewrite IH.
Qed.

Lemma strip_prefix_app (p s r : string) : strip_prefix p s = Some r -> s = p +:+ r.
Proof.
  revert s. induction p as [|a p IH]; intros s; cbn [strip_prefix].
  - now intros [= ->].
  - destruct s as [|b s]; [discriminate|].
    destruct (Ascii.eqb_spec a b) as [->|]; [|discriminate].
    intros H. rewrite append_cons. f_equal. now apply IH.
Qed.

Lemma url_run_split (body : string) :
  exists rest,
    body = url_run body +:+ rest
    /\ all_chars url_char (url_run body) = true /\ ends_match rest.
Proof.
  induction body as [|c body (rest & Hb & Hall & Hrest)].
  - exists "". repeat split.
  - cbn [url_run]. destruct (url_char c) eqn:Hc.
    + exists rest. rewrite append_cons, <- Hb. cbn [all_chars]. rewrite Hc, Hall.
      repeat split. exact Hrest.
    + exists (String c body). repeat split. exact Hc.
Qed.

Lemma match_tail_spec (scheme s m : string) :
  match_tail scheme s = Some m ->
  exists run rest,
    s = "://" +:+ run +:+ rest /\ m = scheme +:+ "://" +:+ run
    /\ run <> "" /\ all_chars url_char run = true /\ ends_match rest.
Proof.
  unfold match_tail. destruct (strip_prefix "://" s) as [body|] eqn:Hp; [|discriminate].
  apply strip_prefix_app in Hp.
  destruct (url_run_split body) as (rest & Hb & Hall & Hrest).
  destruct (url_run body) as [|c run] eqn:Hrun; [discriminate|].
  intros [= <-]. exists (String c run), rest.
  split; [now rewrite <- Hb|]. split; [reflexivity|]. split; [discriminate|].
  split; assumption.
Qed.

(** A match at the head of a text is a prefix of the text, has the shape of
    a URL, and ends where the class ends. *)
Lemma match_here_spec (s m : string) :
  match_here s = Some m ->
  exists rest, s = m +:+ rest /\ url_shaped m /\ ends_match rest.
Proof.
  unfold match_here. destruct (strip_prefix "http" s) as [r|] eqn:Hp; [|discriminate].
  apply strip_prefix_app in Hp. subst s.
  assert (Hplain : match_tail "http" r = Some m ->
            exists rest, "http" +:+ r = m +:+ rest /\ url_shaped m /\ ends_match rest).
  { intros H. apply match_tail_spec in H as (run & rest & -> & -> & Hne & Hall & Hrest).
    exists rest. split; [now rewrite !append_assoc|]. split; [|exact Hrest].
    exists "http", run. auto. }
  destruct r as [|c r']; [exact Hplain|].
  destruct (Ascii.eqb_spec c "s") as [->|Hc].
  - destruct (match_tail "https" r') as [m'|] eqn:Hs; [|exact Hplain].
    intros [= <-].
    apply match_tail_spec in Hs as (run & rest & -> & -> & Hne & Hall & Hrest).
    exists rest. split; [|split; [|exact Hrest]].
    + rewrite !append_assoc. reflexivity.
    + exists "https", run. auto.
  - destruct c as [[] [] [] [] [] [] [] []]; try exact Hplain. contradiction.
Qed.

Lemma findall_skip (a b : string) :
  findall_from (String.length a) (a +:+ b) = findall_from 0 b.
Proof.
  induction a as [|c a IH]; [reflexivity|].
  rewrite append_cons. cbn [String.length findall_from]. exact IH.
Qed.

Lemma findall_step (s : string) :
  (exists m rest, match_here s = Some m /\ s = m +:+ rest
                  /\ url_shaped m /\ ends_match rest
                  /\ findall s = m :: findall rest)
  \/ (match_here s = None
      /\ match s with
         | EmptyString => findall s = []
         | String _ rest => findall s = findall rest
         end).
Proof.
  destruct (match_here s) as [m|] eqn:Hm.
  - left. destruct (match_here_spec s m Hm) as (rest & Hs & Hshape & Hrest).
    exists m, rest. split; [reflexivity|]. split; [exact Hs|].
    split; [exact Hshape|]. split; [exact Hrest|].
    destruct Hshape as (scheme & run & _ & _ & _ & Hmm).
    destruct m as [|c m'].
    { destruct scheme; [|destruct scheme]; discriminate. }
    rewrite append_cons in Hs. subst s. unfold findall. cbn [findall_from].
    rewrite Hm. f_equal.
    replace (String.length (String c m') - 1) with (String.length m')
      by (cbn [String.length]; lia).
    apply findall_skip.
  - right. split; [reflexivity|]. destruct s as [|c rest]; [reflexivity|].
    unfold findall. cbn [findall_from]. now rewrite Hm.
Qed.

Lemma url_shaped_length (m : string) : url_shaped m -> 8 <= String.length m.
Proof.
  intros (scheme & run & Hs & Hne & _ & ->). rewrite !length_append.
  destruct run; [contradiction|]. destruct Hs as [-> | ->]; cbn; lia.
Qed.

Lemma append_inv_head (m r1 r2 : string) : m +:+ r1 = m +:+ r2 -> r1 = r2.
Proof.
  induction m as [|c m IH]; [trivial|]. rewrite !append_cons. intros [= H]. auto.
Qed.

Lemma url_run_app (run rest : string) :
  all_chars url_char run = true -> ends_match rest ->
  url_run (run +:+ rest) = run.
Proof.
  intros Hall Hrest. induction run as [|c run IH].
  - destruct rest as [|c rest]; [reflexivity|]. cbn in Hrest.
    change ("" +:+ String c rest) with (String c rest). cbn [url_run]. now rewrite Hrest.
  - cbn [all_chars] in Hall. apply andb_true_iff in Hall as [Hc Hall].
    rewrite append_cons. cbn [url_run]. rewrite Hc. now rewrite (IH Hall).
Qed.

Lemma url_run_head (c : ascii) (s : string) :
  url_char c = true -> url_run (String c s) <> "".
Proof. intros Hc. cbn [url_run]. rewrite Hc. discriminate. Qed.

Lemma match_tail_app (scheme body : string) :
  url_run body <> "" ->
  match_tail scheme ("://" +:+ body) = Some (scheme +:+ "://" +:+ url_run body).
Proof.
  intros Hne. unfold match_tail.
  change (strip_prefix "://" ("://" +:+ body)) with (Some body).
  cbv beta iota. destruct (url_run body) as [|c run]; [contradiction | reflexivity].
Qed.

(** Where a URL begins, [match_here] finds the match that takes the whole
    run of class characters. *)
Lemma match_here_complete (scheme run rest : string) :
  scheme = "http" \/ scheme = "https" ->
  run <> "" -> all_chars url_char run = true ->
  match_here ((scheme +:+ "://" +:+ run) +:+ rest)
  = Some (scheme +:+ "://" +:+ url_run (run +:+ rest)).
Proof.
  intros Hs Hne Hall.
  assert (Hrun : url_run (run +:+ rest) <> "").
  { destruct run as [|c run]; [contradiction|]. rewrite append_cons.
    cbn [all_chars] in Hall. apply andb_true_iff in Hall as [Hc _].
    now apply url_run_head. }
  rewrite !append_assoc. unfold match_here.
  destruct Hs as [-> | ->].
  - change (strip_prefix "http" ("http" +:+ "://" +:+ run +:+ rest))
      with (Some ("://" +:+ run +:+ rest)).
    change ("://" +:+ run +:+ rest) with (String ":" ("//" +:+ run +:+ rest)) at 1.
    cbv beta iota.
    change (String ":" ("//" +:+ run +:+ rest)) with ("://" +:+ (run +:+ rest)).
    now apply match_tail_app.
  - change (strip_prefix "http" ("https" +:+ "://" +:+ run +:+ rest))
      with (Some (String "s" ("://" +:+ run +:+ rest))).
    cbv beta iota. now rewrite (match_tail_app "https" (run +:+ rest) Hrun).
Qed.

Lemma match_here_unique (m rest : string) :
  url_shaped m -> ends_match rest -> match_here (m +:+ rest) = Some m.
Proof.
  intros (scheme & run & Hs & Hne & Hall & ->) Hrest.
  rewrite (match_here_complete scheme run rest Hs Hne Hall).
  now rewrite (url_run_app run rest Hall Hrest).
Qed.

Lemma match_here_none (s : string) : match_here s = None -> ~ match_at s.
Proof.
  intros Hnone (m & rest & (scheme & run & Hs & Hne & Hall & ->) & ->).
  rewrite (match_here_complete scheme run rest Hs Hne Hall) in Hnone. discriminate.
Qed.

Lemma findall_scanned (n : nat) (text : string) :
  String.length text <= n -> scanned text (findall text).
Proof.
  revert text. induction n as [|n IH]; intros text Hlen.
  - destruct text; [|cbn in Hlen; lia]. constructor.
  - destruct (findall_step text)
      as [(m & rest & _ & Htext & Hshape & Hrest & Hfind) | (Hnone & Hfind)].
    + pose proof (url_shaped_length m Hshape) as Hm.
      assert (Hr : String.length rest <= n)
        by (rewrite Htext, length_append in Hlen; lia).
      rewrite Hfind. rewrite Htext at 1.
      apply scanned_match; [exact Hshape | exact Hrest | exact (IH rest Hr)].
    + destruct text as [|c rest]; [rewrite Hfind; constructor|].
      rewrite Hfind. apply scanned_pass; [now apply match_here_none|].
      apply IH. cbn in Hlen. lia.
Qed.

(** X8: [findall] gives the matches of the pattern as [re.findall] defines
    them, and nothing else does: every match has the shape of the pattern
    (http or https, [://], then one or more characters that are no space,
    closing parenthesis, closing bracket or [>]) and runs up to the end of
    the text or to the first character that the pattern excludes; the matches
    are taken from left to right, none begins before the end of the one
    before it, and no place where a match begins is passed over. *)
Theorem findall_matches_in_order (text : string) (ms : list string) :
  scanned text ms <-> ms = findall text.
Proof.
  split.
  - intros Hscan. induction Hscan as [|c s ms Hno _ IH|m rest ms Hshape Hrest _ IH].
    + reflexivity.
    + destruct (findall_step (String c s))
        as [(m & rest & _ & Htext & Hshape & _) | (_ & Hfind)].
      * exfalso. apply Hno. now exists m, rest.
      * now rewrite Hfind.
    + pose proof (match_here_unique m rest Hshape Hrest) as Hhere.
      destruct (findall_step (m +:+ rest))
        as [(m' & rest' & Hm' & Htext & _ & _ & Hfind) | (Hnone & _)].
      * rewrite Hhere in Hm'. injection Hm' as <-.
        apply append_inv_head in Htext. subst rest'. now rewrite Hfind, IH.
      * rewrite Hhere in Hnone. discriminate.
  - intros ->. exact (findall_scanned (String.length text) text (le_n _)).
Qed.

Lemma posts_app (tr1 tr2 : list event) : posts (tr1 ++ tr2) = posts tr1 + posts tr2.
Proof. unfold posts. now rewrite List.filter_app, List.length_app. Qed.

(** The loop only adds to the trace, sends no submission, and issues at most
    one status check for each attempt. *)
Lemma poll_loop_trace (repr : pyval -> string) (N : net) (interaction_id : pyval)
    (attempts : list nat) (tr : list event) :
  exists added,
    snd (poll_loop repr N interaction_id attempts tr) = tr ++ added
    /\ posts added = 0 /\ polls added <= length attempts.
Proof.
  revert tr. induction attempts as [|attempt later IH]; intros tr.
  - exists []. cbn. rewrite List.app_nil_r. repeat split. lia.
  - cbn [poll_loop length]. unfold io_bind at 1. unfold http_get.
    destruct (get_reply N (polls tr)) as [resp|e].
    2:{ eexists. split; [reflexivity|]. split; [reflexivity | cbn; lia]. }
    unfold io_bind at 1. unfold io_lift at 1.
    destruct (status_of resp) as [status|e].
    2:{ eexists. split; [reflexivity|]. split; [reflexivity | cbn; lia]. }
    unfold io_bind at 1. unfold emit at 1.
    destruct (in_pair status "completed" "COMPLETED").
    { unfold io_ret. cbn [snd]. rewrite <- List.app_assoc.
      eexists. split; [reflexivity|]. split; [reflexivity | cbn; lia]. }
    destruct (in_pair status "failed" "FAILED").
    { unfold io_bind, io_lift, io_raise.
      destruct (failure_message repr resp); cbn [snd]; rewrite <- List.app_assoc;
        eexists; (split; [reflexivity|]); (split; [reflexivity | cbn; lia]). }
    unfold io_bind at 1. unfold emit at 1.
    unfold io_bind at 1. unfold emit at 1.
    destruct (IH ((((tr ++ [EvGet (BASE_URL +:+ "/interactions/"
                                     +:+ py_str repr interaction_id)])
                      ++ [EvLog ("Gemini poll " +:+ show_nat (attempt + 1)
                                   +:+ ": status=" +:+ py_str repr status)])
                     ++ [EvStderr ("  [Gemini] Status: " +:+ py_str repr status
                                     +:+ " (poll " +:+ show_nat (attempt + 1)
                                     +:+ ")")])
                    ++ [EvSleep POLL_INTERVAL]))
      as (added & Hsnd & Hposts & Hpolls).
    rewrite Hsnd. rewrite <- !List.app_assoc. eexists. split; [reflexivity|].
    rewrite !posts_app, !GeminiFacts.polls_app, Hposts.
    split; [reflexivity|]. cbn. lia.
Qed.

(** X9: every run of [research] sends exactly one submission, as its first
    action, and then at most MAX_POLL_ATTEMPTS status checks; when the
    submission fails, the run ends with that failure and nothing else is
    sent. *)
Theorem research_sends_one_submission (repr : pyval -> string) (N : net)
    (api_key topic : string) :
  let run := research repr N api_key topic [] in
  exists rest,
    snd run = EvPost (BASE_URL +:+ "/interactions") :: rest
    /\ posts rest = 0
    /\ polls rest <= MAX_POLL_ATTEMPTS
    /\ (forall e, post_reply N = Raise e -> fst run = Raise e /\ rest = []).
Proof.
  intros run. subst run. unfold research, _submit_request.
  unfold io_bind at 1. unfold http_post. cbn [List.app].
  destruct (post_reply N) as [resp|e0].
  2:{ exists []. split; [reflexivity|]. split; [reflexivity|]. split; [cbn; lia|].
      intros e [= <-]. split; reflexivity. }
  assert (Hno : forall e : exc, Ret resp = Raise e -> False) by discriminate.
  unfold io_bind at 1. unfold io_lift at 1.
  destruct (interaction_id_of resp) as [interaction_id|e1].
  2:{ exists []. split; [reflexivity|]. split; [reflexivity|].
      split; [cbn; lia|]. intros x Hx; destruct (Hno x Hx). }
  destruct (negb (truthy interaction_id)).
  { exists []. split; [reflexivity|]. split; [reflexivity|].
    split; [cbn; lia|]. intros x Hx; destruct (Hno x Hx). }
  unfold io_bind at 1. unfold io_lift at 1.
  destruct (status_of resp) as [status|e2].
  2:{ exists []. split; [reflexivity|]. split; [reflexivity|].
      split; [cbn; lia|]. intros x Hx; destruct (Hno x Hx). }
  destruct (in_pair status "completed" "COMPLETED").
  { unfold io_bind, io_lift, io_ret.
    destruct (_extract_report resp); exists []; (split; [reflexivity|]);
      (split; [reflexivity|]); (split; [cbn; lia|]);
      intros x Hx; destruct (Hno x Hx). }
  unfold io_bind at 1. unfold _poll_response.
  destruct (poll_loop_trace repr N interaction_id (seq 0 MAX_POLL_ATTEMPTS)
              [EvPost (BASE_URL +:+ "/interactions")])
    as (added & Hsnd & Hposts & Hpolls).
  rewrite List.length_seq in Hpolls.
  destruct (poll_loop repr N interaction_id (seq 0 MAX_POLL_ATTEMPTS)
              [EvPost (BASE_URL +:+ "/interactions")]) as [[completed|e3] tr].
  - cbn [snd] in Hsnd. subst tr. unfold io_bind, io_lift, io_ret.
    destruct (_extract_report completed); exists added; cbn [snd fst List.app];
      (split; [reflexivity|]); (split; [exact Hposts|]); (split; [exact Hpolls|]);
      intros x Hx; destruct (Hno x Hx).
  - cbn [snd] in Hsnd. subst tr. exists added. cbn [snd fst List.app].
    split; [reflexivity|]. split; [exact Hposts|]. split; [exact Hpolls|].
    intros x Hx; destruct (Hno x Hx).
Qed.

Lemma interaction_id_of_dict (d : list (string * pyval)) :
  interaction_id_of (PDict d) = Ret (chosen_id d).
Proof.
  unfold interaction_id_of, chosen_id, get, dict_get. cbn [bind].
  destruct (items_get d "name"); [reflexivity|].
  destruct (items_get d "id"); [reflexivity|].
  now destruct (items_get d "interactionId").
Qed.

(** X10: the identifier of the job is the first of [name], [id] and
    [interactionId] that the submission reply holds; when that value is
    empty or otherwise false, or none of the three is there, [research] fails
    with "No interaction ID returned from Gemini" right after the
    submission, without a status check. *)
Theorem research_without_interaction_id (repr : pyval -> string) (N : net)
    (api_key topic : string) (d : list (string * pyval)) :
  post_reply N = Ret (PDict d) ->
  truthy (chosen_id d) = false ->
  research repr N api_key topic []
  = (Raise (HTTPError "No interaction ID returned from Gemini"),
     [EvPost (BASE_URL +:+ "/interactions")]).
Proof.
  intros Hpost Hid. unfold research, _submit_request.
  unfold io_bind at 1. unfold http_post. rewrite Hpost.
  unfold io_bind at 1. unfold io_lift at 1. rewrite interaction_id_of_dict, Hid.
  reflexivity.
Qed.

Lemma research_without_interaction_id_witness :
  fst (research (fun _ => "") empty_name "key" "topic" [])
  = Raise (HTTPError "No interaction ID returned from Gemini").
Proof.
  rewrite (research_without_interaction_id (fun _ => "") empty_name "key" "topic"
             [("name", PStr ""); ("id", PStr "job-1")] eq_refl eq_refl).
  reflexivity.
Defined.

(** X11: when the submission reply already carries a completed status, the
    result is extracted from that reply and no status check is issued. *)
Theorem research_completed_at_submission (repr : pyval -> string) (N : net)
    (api_key topic : string) (resp interaction_id status : pyval) :
  post_reply N = Ret resp ->
  interaction_id_of resp = Ret interaction_id ->
  truthy interaction_id = true ->
  status_of resp = Ret status ->
  in_pair status "completed" "COMPLETED" = true ->
  let run := research repr N api_key topic [] in
  fst run = (extracted <- _extract_report resp;;
             Ret (fst extracted, snd extracted, AGENT))
  /\ snd run = [EvPost (BASE_URL +:+ "/interactions")]
  /\ polls (snd run) = 0 /\ slept (snd run) = 0.
Proof.
  intros Hpost Hid Htruthy Hstatus Hdone run.
  assert (Hrun : run = (extracted <- _extract_report resp;;
                        Ret (fst extracted, snd extracted, AGENT),
                        [EvPost (BASE_URL +:+ "/interactions")])).
  { subst run. unfold research, _submit_request.
    unfold io_bind at 1. unfold http_post. rewrite Hpost.
    unfold io_bind at 1. unfold io_lift at 1. rewrite Hid, Htruthy. cbn [negb].
    unfold io_bind at 1. unfold io_lift at 1. rewrite Hstatus, Hdone.
    unfold io_bind, io_lift, io_ret. now destruct (_extract_report resp). }
  rewrite Hrun. repeat split.
Qed.

Lemma research_completed_at_submission_witness :
  fst (research (fun _ => "") ready_net "key" "topic" [])
  = Ret (PStr "C", [], AGENT)
  /\ polls (snd (research (fun _ => "") ready_net "key" "topic" [])) = 0.
Proof.
  destruct (research_completed_at_submission (fun _ => "") ready_net "key" "topic"
              _ (PStr "job-1") (PStr "completed") eq_refl eq_refl eq_refl eq_refl
              eq_refl) as (Hr & _ & Hp & _).
  split; [exact Hr | exact Hp].
Defined.

Lemma failed_is_not_completed (status : pyval) :
  in_pair status "failed" "FAILED" = true ->
  in_pair status "completed" "COMPLETED" = false.
Proof.
  unfold in_pair, eq_str. destruct status as [| | | |s| |]; try discriminate.
  intros H. apply orb_true_iff in H as [H|H]; apply String.eqb_eq in H; subst s;
    reflexivity.
Qed.

(** X12: when the first status check that ends the loop carries a failed
    status, the loop raises the failure of the provider after that check,
    without further checks; the message is "Gemini deep research failed: "
    followed by the [message] of the [error] record, by the [error] itself
    when it is a string, or by "Unknown error" when there is no [error]. *)
Theorem provider_failure_is_reported (repr : pyval -> string) (N : net)
    (api_key : string) (interaction_id : pyval) (k : nat)
    (d : list (string * pyval)) (status : pyval) :
  k < MAX_POLL_ATTEMPTS ->
  (forall j, j < k -> ends_at N j = false) ->
  get_reply N k = Ret (PDict d) ->
  status_of (PDict d) = Ret status ->
  in_pair status "failed" "FAILED" = true ->
  let run := _poll_response repr N api_key interaction_id [] in
  polls (snd run) = S k
  /\ slept (snd run) = POLL_INTERVAL * k
  /\ fst run = (msg <- failure_message repr (PDict d);; Raise (HTTPError msg))
  /\ failure_message repr (PDict d)
     = match items_get d "error" with
       | None => Ret "Gemini deep research failed: Unknown error"
       | Some (PStr s) => Ret ("Gemini deep research failed: " +:+ s)
       | Some (PDict e) =>
           Ret ("Gemini deep research failed: "
                  +:+ py_str repr (dict_get e "message" (PStr "Unknown error")))
       | Some other => Ret ("Gemini deep research failed: " +:+ repr other)
       end.
Proof.
  intros Hk Hbefore Hget Hstatus Hfailed run.
  assert (Hend : ends_at N k = true).
  { unfold ends_at. rewrite Hget, Hstatus. unfold terminal. rewrite Hfailed.
    apply orb_true_r. }
  pose proof (GeminiFacts.poll_loop_run repr N interaction_id
                (seq 0 MAX_POLL_ATTEMPTS) []) as H.
  cbv zeta in H. rewrite List.length_seq in H.
  change (polls []) with 0 in H. change (slept []) with 0 in H. cbn [Nat.add] in H.
  fold (_poll_response repr N api_key interaction_id []) in H. fold run in H.
  destruct H as [(_ & Hall & _) | (k' & Hk' & Hall & Hend' & Hr & Hp & Hs)].
  { rewrite (Hall k Hk) in Hend. discriminate. }
  assert (k' = k) as ->.
  { destruct (Nat.lt_trichotomy k' k) as [Hlt|[Heq|Hgt]]; [|exact Heq|].
    - rewrite (Hbefore k' Hlt) in Hend'. discriminate.
    - rewrite (Hall k Hgt) in Hend. discriminate. }
  split; [exact Hp|]. split; [exact Hs|]. split.
  - rewrite Hr. unfold ending_result. rewrite Hget. cbn [bind]. rewrite Hstatus.
    cbn [bind]. now rewrite (failed_is_not_completed status Hfailed).
  - unfold failure_message, get, dict_get. cbn [bind].
    destruct (items_get d "error") as [[| | | | | |e]|]; reflexivity.
Qed.

Lemma provider_failure_is_reported_witness :
  fst (_poll_response (fun _ => "") quota_failure "key" (PStr "job-1") [])
  = Raise (HTTPError "Gemini deep research failed: quota exceeded")
  /\ polls (snd (_poll_response (fun _ => "") quota_failure "key" (PStr "job-1") []))
     = 2.
Proof.
  assert (Hbefore : forall j, j < 1 -> ends_at quota_failure j = false).
  { intros j Hj. replace j with 0 by lia. reflexivity. }
  destruct (provider_failure_is_reported (fun _ => "") quota_failure "key"
              (PStr "job-1") 1 _ (PStr "FAILED") ltac:(unfold MAX_POLL_ATTEMPTS; lia)
              Hbefore eq_refl eq_refl eq_refl) as (Hp & _ & Hr & _).
  split; [exact Hr | exact Hp].
Defined.

Lemma get_dict (d : list (string * pyval)) (k : string) (dflt : pyval) :
  get (PDict d) k dflt
  = Ret (match items_get d k with Some v => v | None => dflt end).
Proof. reflexivity. Qed.

Lemma fold_append_source (l : list pyval) (acc : list pyval) :
  fold_left append_source l acc = acc ++ flat_map cite l.
Proof.
  revert acc. induction l as [|src l IH]; intros acc.
  - cbn. now rewrite List.app_nil_r.
  - cbn [fold_left flat_map]. rewrite IH. unfold cite at 2.
    destruct src; cbn [append_source List.app]; try reflexivity;
      now rewrite <- List.app_assoc.
Qed.

Lemma cite_length (src : pyval) : length (cite src) <= 1.
Proof. destruct src; cbn; lia. Qed.

(** X13: the structured source list gives one citation for each entry that
    is a string or a record, in the order of the list, and none for any
    other entry; a list of strings gives the records of these strings. *)
Theorem structured_sources_in_order (d : list (string * pyval)) (l : list pyval) :
  items_get d "sources" = Some (PList l) ->
  match items_get d "groundingMetadata" with
  | Some v => is_dict v = true
  | None => True
  end ->
  structured_citations (PDict d) = Ret (flat_map cite l)
  /\ length (flat_map cite l) <= length l
  /\ (forall urls, l = map PStr urls -> flat_map cite l = map url_record urls)
  /\ (forall src, is_str src = false -> is_dict src = false -> cite src = []).
Proof.
  intros Hsources Hgrounding. split; [|split; [|split]].
  - unfold structured_citations. rewrite get_dict. cbn [bind].
    destruct (items_get d "groundingMetadata") as [v|].
    + destruct v; try discriminate Hgrounding.
      rewrite get_dict. cbn [bind]. rewrite get_dict. cbn [bind].
      rewrite Hsources. now rewrite fold_append_source.
    + rewrite get_dict. cbn [bind]. rewrite get_dict. cbn [bind].
      rewrite Hsources. now rewrite fold_append_source.
  - clear. induction l as [|src l IH]; [reflexivity|].
    cbn [flat_map length]. rewrite List.length_app.
    pose proof (cite_length src). lia.
  - intros urls ->. clear. induction urls as [|u urls IH]; [reflexivity|].
    cbn [map flat_map]. now rewrite IH.
  - intros src Hs Hd. destruct src; try reflexivity; discriminate.
Qed.

Lemma structured_sources_in_order_witness :
  structured_citations repeated_sources
  = Ret [PDict [("url", PStr "https://a.example/x")];
         PDict [("url", PStr "https://a.example/x")]].
Proof.
  destruct (structured_sources_in_order
              [("outputs", PList [PStr "report"]);
               ("sources", PList [PStr "https://a.example/x"; PStr "https://a.example/x"])]
              [PStr "https://a.example/x"; PStr "https://a.example/x"] eq_refl I)
    as (H & _).
  exact H.
Defined.

(** X14: the default of a [get] is computed before the [get] itself: a
    reply whose [metadata] is not a record makes the reading of the status
    raise, whatever its [status] field holds, and a reply whose
    [groundingMetadata] is not a record makes the extraction raise, whatever
    its [sources] field holds. *)
Theorem eager_defaults_raise (d : list (string * pyval)) (v : pyval) :
  is_dict v = false ->
  let e := Exc "AttributeError"
               ("'" +:+ type_name v +:+ "' object has no attribute 'get'") in
  (items_get d "metadata" = Some v -> status_of (PDict d) = Raise e)
  /\ (items_get d "groundingMetadata" = Some v ->
      structured_citations (PDict d) = Raise e
      /\ is_ret (_extract_report (PDict d)) = false).
Proof.
  intros Hv e. split.
  - intros Hm. unfold status_of. rewrite get_dict, Hm. cbn [bind].
    destruct v; try discriminate Hv; reflexivity.
  - intros Hg.
    assert (Hs : structured_citations (PDict d) = Raise e).
    { unfold structured_citations. rewrite get_dict, Hg. cbn [bind].
      destruct v; try discriminate Hv; reflexivity. }
    split; [exact Hs|]. unfold _extract_report.
    destruct (report_of (PDict d)); [|reflexivity]. cbn [bind]. now rewrite Hs.
Qed.

Lemma eager_defaults_raise_witness :
  status_of (PDict [("status", PStr "completed"); ("metadata", PStr "none")])
  = Raise (Exc "AttributeError" "'str' object has no attribute 'get'").
Proof.
  exact (proj1 (eager_defaults_raise
                  [("status", PStr "completed"); ("metadata", PStr "none")]
                  (PStr "none") eq_refl) eq_refl).
Defined.

Lemma last_item_snoc (earlier : list pyval) (x : pyval) :
  last_item (PList (earlier ++ [x])) = Ret x
  /\ truthy (PList (earlier ++ [x])) = true.
Proof.
  split.
  - cbn [last_item]. rewrite List.map_app. cbn [List.map].
    now rewrite List.last_last.
  - now destruct earlier.
Qed.

(** X24: the report is taken from the last output alone, whatever the
    outputs before it hold: its text when it is a string or a record with a
    [text] that is not empty; with no outputs, the report is the [text] of
    the [result] record, else its [content], else the empty string. *)
Theorem report_is_last_output (d : list (string * pyval)) (outputs : list pyval) :
  items_get d "outputs" = Some (PList outputs) ->
  (forall earlier s,
     outputs = earlier ++ [PStr s] -> s <> "" -> report_of (PDict d) = Ret (PStr s))
  /\ (forall earlier o s,
        outputs = earlier ++ [PDict o] -> items_get o "text" = Some (PStr s) ->
        s <> "" -> report_of (PDict d) = Ret (PStr s))
  /\ (outputs = [] ->
      report_of (PDict d)
      = match items_get d "result" with
        | Some (PDict r) => Ret (dict_get r "text" (dict_get r "content" (PStr "")))
        | _ => Ret (PStr "")
        end).
Proof.
  intros Hout. unfold report_of. rewrite get_dict, Hout. cbn [bind].
  split; [|split].
  - intros earlier s -> Hs. destruct (last_item_snoc earlier (PStr s)) as [-> ->].
    cbn [bind is_dict is_str truthy]. apply String.eqb_neq in Hs. now rewrite Hs.
  - intros earlier o s -> Htext Hs. destruct (last_item_snoc earlier (PDict o)) as [-> ->].
    cbn [bind is_dict]. unfold text_or_content. rewrite get_dict. cbn [bind].
    rewrite get_dict, Htext. cbn [bind truthy]. apply String.eqb_neq in Hs. now rewrite Hs.
  - intros ->. cbn [truthy bind String.eqb negb]. rewrite get_dict.
    destruct (items_get d "result") as [[| | | | | |r]|]; try reflexivity.
Qed.

Lemma report_is_last_output_witness :
  report_of (PDict [("outputs", PList [PStr "draft"; PStr "final report"])])
  = Ret (PStr "final report").
Proof.
  refine (proj1 (report_is_last_output
                   [("outputs", PList [PStr "draft"; PStr "final report"])]
                   [PStr "draft"; PStr "final report"] eq_refl)
                [PStr "draft"] "final report" eq_refl _).
  discriminate.
Defined.

End GeminiMore.

(** ** The orchestrator, further *)

Module DeepResearchMore.

Import DeepResearch Samples MoreSamples.

Lemma modules_outside (w : world) (p : string) :
  ~ List.In p canonical -> PROVIDER_MODULES w !! p = None.
Proof.
  intros Hp. unfold PROVIDER_MODULES. cbn [list_to_map foldr uncurry fst snd].
  cbn in Hp. rewrite !lookup_insert_ne by (intros <-; tauto). apply lookup_empty.
Qed.

Lemma modules_lookup (w : world) :
  PROVIDER_MODULES w !! "openai" = Some (openai_dr w)
  /\ PROVIDER_MODULES w !! "perplexity" = Some (perplexity_dr w)
  /\ PROVIDER_MODULES w !! "gemini" = Some (gemini_dr w).
Proof.
  unfold PROVIDER_MODULES. cbn [list_to_map foldr uncurry fst snd].
  split; [apply lookup_insert_eq|]. split.
  - rewrite lookup_insert_ne by discriminate. apply lookup_insert_eq.
  - rewrite !lookup_insert_ne by discriminate. apply lookup_insert_eq.
Qed.

Lemma gemini_model (repr : pyval -> string) (N : Gemini.net) (api_key topic : string)
    (rep : pyval) (cits : list pyval) (agent : string) :
  fst (Gemini.research repr N api_key topic []) = Ret (rep, cits, agent) ->
  agent = Gemini.AGENT.
Proof.
  unfold Gemini.research, Gemini._submit_request.
  unfold Gemini.io_bind at 1. unfold Gemini.http_post.
  destruct (Gemini.post_reply N) as [resp|]; [|discriminate].
  unfold Gemini.io_bind at 1. unfold Gemini.io_lift at 1.
  destruct (Gemini.interaction_id_of resp) as [interaction_id|]; [|discriminate].
  destruct (negb (truthy interaction_id)); [discriminate|].
  unfold Gemini.io_bind at 1. unfold Gemini.io_lift at 1.
  destruct (Gemini.status_of resp) as [status|]; [|discriminate].
  destruct (in_pair status "completed" "COMPLETED").
  - unfold Gemini.io_bind, Gemini.io_lift, Gemini.io_ret.
    destruct (Gemini._extract_report resp); [|discriminate]. now intros [= _ _ <-].
  - unfold Gemini.io_bind at 1.
    destruct (Gemini._poll_response repr N api_key interaction_id _) as [[completed|] tr];
      [|discriminate].
    unfold Gemini.io_bind, Gemini.io_lift, Gemini.io_ret.
    destruct (Gemini._extract_report completed); [|discriminate]. now intros [= _ _ <-].
Qed.

(** X15: for each of the three providers [run_provider] returns a result and
    does not raise; the result names the provider and the measured time; on
    a failure of the call its report and citations are the defaults of the
    record and its model is the [MODEL] of the module, or "unknown" when the
    module has none, as is the case for gemini; a gemini success carries the
    agent name as its model. *)
Theorem run_provider_never_raises (w : world) (p : string) (api_key : option string)
    (topic : string) :
  List.In p canonical ->
  exists r,
    run_provider w p api_key topic = Ret r
    /\ provider r = p
    /\ elapsed_seconds r = elapsed w p
    /\ (forall e, call_research w p api_key topic = Raise e ->
          success r = PBool false
          /\ report r = report (defaults w)
          /\ citations r = citations (defaults w)
          /\ (p = "openai" -> model r = default (PStr "unknown") (MODEL (openai_dr w)))
          /\ (p = "perplexity" ->
              model r = default (PStr "unknown") (MODEL (perplexity_dr w)))
          /\ (p = "gemini" -> model r = PStr "unknown"))
    /\ (p = "gemini" -> is_ret (call_research w p api_key topic) = true ->
        success r = PBool true /\ model r = PStr Gemini.AGENT).
Proof.
  intros Hp. destruct (modules_lookup w) as (Ho & Hx & Hg).
  unfold run_provider.
  destruct (call_research w p api_key topic) as [[[rep cits] mdl]|e] eqn:Hcall.
  - eexists. split; [reflexivity|]. cbn [provider elapsed_seconds success model].
    split; [reflexivity|]. split; [reflexivity|]. split; [discriminate|].
    intros -> _. split; [reflexivity|].
    unfold call_research in Hcall. rewrite Hg in Hcall. cbn [research gemini_dr] in Hcall.
    destruct (fst (Gemini.research _ _ _ _ _)) as [[[rep' cits'] agent]|] eqn:Hres;
      [|discriminate].
    injection Hcall as _ _ <-. f_equal. exact (gemini_model _ _ _ _ _ _ _ Hres).
  - cbn in Hp. destruct Hp as [<-|[<-|[<-|[]]]].
    + rewrite Ho. eexists. split; [reflexivity|]. cbn.
      repeat split; try reflexivity; try discriminate.
    + rewrite Hx. eexists. split; [reflexivity|]. cbn.
      repeat split; try reflexivity; try discriminate.
    + rewrite Hg. eexists. split; [reflexivity|]. cbn.
      repeat split; try reflexivity; try discriminate.
Qed.

Lemma run_provider_never_raises_witness :
  exists r,
    run_provider isolation_world "perplexity" (Some "k2") "topic" = Ret r
    /\ provider r = "perplexity".
Proof.
  destruct (run_provider_never_raises isolation_world "perplexity" (Some "k2") "topic"
              ltac:(cbn; tauto)) as (r & Hr & Hp & _).
  exists r. split; [exact Hr | exact Hp].
Defined.

Lemma escape_plain (s : string) : plain s = true -> escape single_quote s = s.
Proof.
  induction s as [|c s IH]; [reflexivity|]. cbn [plain escape].
  intros H. apply andb_true_iff in H as [Hc Hs]. rewrite (IH Hs).
  assert (Hesc : escape_char single_quote c = String c "").
  { clear -Hc. destruct c as [[] [] [] [] [] [] [] []]; try discriminate Hc; reflexivity. }
  now rewrite Hesc.
Qed.

Lemma plain_no_quote (s : string) : plain s = true -> holds single_quote s = false.
Proof.
  induction s as [|c s IH]; [reflexivity|]. cbn [plain holds].
  intros H. apply andb_true_iff in H as [Hc Hs]. rewrite (IH Hs).
  apply andb_true_iff in Hc as [Hc _]. apply andb_true_iff in Hc as [_ Hc].
  apply negb_true_iff in Hc. now rewrite Hc.
Qed.

(** X16: [run_provider] raises exactly for the providers that are not in
    [PROVIDER_MODULES]: the failed lookup is caught by its handler, which
    repeats it, so that the [KeyError] of the provider name reaches the
    caller.  The text of that exception is [repr] of the name, which for a
    name of printable characters without single quote or backslash is the
    name between single quotes. *)
Theorem unknown_provider_raises_key_error (w : world) (p : string)
    (api_key : option string) (topic : string) :
  (is_ret (run_provider w p api_key topic) = false <-> ~ List.In p canonical)
  /\ (~ List.In p canonical ->
      run_provider w p api_key topic = Raise (KeyError p)
      /\ exc_type (KeyError p) = "KeyError"
      /\ exc_str (KeyError p) = repr_str p)
  /\ (plain p = true -> repr_str p = "'" +:+ p +:+ "'").
Proof.
  assert (Hout : ~ List.In p canonical ->
            run_provider w p api_key topic = Raise (KeyError p)).
  { intros Hp. pose proof (modules_outside w p Hp) as Hnone.
    unfold run_provider, call_research. now rewrite Hnone. }
  split; [|split].
  - split.
    + intros Hraise Hp.
      destruct (DeepResearchFacts.modules_canonical w p Hp) as (module & Hm).
      unfold run_provider in Hraise.
      destruct (call_research w p api_key topic) as [[[rep cits] mdl]|e];
        [discriminate|]. rewrite Hm in Hraise. discriminate.
    + intros Hp. now rewrite (Hout Hp).
  - intros Hp. split; [exact (Hout Hp)|]. split; reflexivity.
  - intros Hplain. unfold repr_str.
    rewrite (plain_no_quote p Hplain). cbn [andb].
    now rewrite (escape_plain p Hplain).
Qed.

Lemma unknown_provider_raises_key_error_witness :
  run_provider isolation_world "grok" None "topic" = Raise (Exc "KeyError" "'grok'").
Proof.
  destruct (unknown_provider_raises_key_error isolation_world "grok" None "topic")
    as (_ & Hraise & _).
  refine (proj1 (Hraise _)). cbn. intuition discriminate.
Defined.

Lemma mock_result_provider (w : world) (p : string) (r : ProviderResult) :
  mock_result w p = Ret r -> provider r = p.
Proof.
  unfold mock_result. destruct (load_fixture w _) as [fixture|]; [|discriminate].
  cbn [bind]. destruct (truthy fixture); [|now intros [= <-]].
  destruct fixture; try discriminate. cbn [get bind]. now intros [= <-].
Qed.

Lemma run_mock_loop_spec (w : world) (providers : list string)
    (results : list ProviderResult) :
  match run_mock_loop w providers results with
  | Ret rs =>
      exists added,
        rs = results ++ added
        /\ Forall2 (fun p r => mock_result w p = Ret r) providers added
  | Raise e =>
      exists before p after,
        providers = before ++ p :: after
        /\ mock_result w p = Raise e
        /\ List.Forall (fun q => is_ret (mock_result w q) = true) before
  end.
Proof.
  revert results. induction providers as [|p rest IH]; intros results.
  - cbn. exists []. split; [now rewrite List.app_nil_r | constructor].
  - cbn [run_mock_loop]. destruct (mock_result w p) as [r|e] eqn:Hp; cbn [bind].
    + specialize (IH (results ++ [r])).
      destruct (run_mock_loop w rest (results ++ [r])) as [rs|e].
      * destruct IH as (added & -> & Hall). exists (r :: added).
        split; [now rewrite <- List.app_assoc | now constructor].
      * destruct IH as (before & q & after & -> & Hq & Hbefore).
        exists (p :: before), q, after. split; [reflexivity|]. split; [exact Hq|].
        constructor; [now rewrite Hp | exact Hbefore].
    + exists [], p, rest. split; [reflexivity|]. split; [exact Hp | constructor].
Qed.

Lemma run_mock_providers (w : world) (providers : list string)
    (rs : list ProviderResult) :
  run_mock w providers = Ret rs ->
  map provider rs = providers
  /\ Forall2 (fun p r => mock_result w p = Ret r) providers rs.
Proof.
  unfold run_mock. pose proof (run_mock_loop_spec w providers []) as H.
  intros Hrs. rewrite Hrs in H. destruct H as (added & -> & Hall).
  cbn [List.app]. split; [|exact Hall].
  clear Hrs. induction Hall as [|p r ps rs Hp _ IH]; [reflexivity|].
  cbn [map]. now rewrite (mock_result_provider w p r Hp), IH.
Qed.

(** X17: when [run_mock] returns, it returns one result for each requested
    provider, in the order requested, each being what the fixture of that
    provider gives; when the loading of a fixture raises, [run_mock] raises
    that exception and returns nothing, also for the providers before it. *)
Theorem run_mock_all_or_nothing (w : world) (providers : list string) :
  (forall rs, run_mock w providers = Ret rs ->
     map provider rs = providers
     /\ Forall2 (fun p r => mock_result w p = Ret r) providers rs)
  /\ (forall e, run_mock w providers = Raise e ->
        exists before p after,
          providers = before ++ p :: after
          /\ mock_result w p = Raise e
          /\ List.Forall (fun q => is_ret (mock_result w q) = true) before)
  /\ (forall p e, List.In p providers -> mock_result w p = Raise e ->
        is_ret (run_mock w providers) = false).
Proof.
  split; [exact (run_mock_providers w providers)|].
  unfold run_mock. pose proof (run_mock_loop_spec w providers []) as H.
  split.
  - intros e He. now rewrite He in H.
  - intros p e Hin Hp. destruct (run_mock_loop w providers []) as [rs|]; [|reflexivity].
    destruct H as (added & _ & Hall). exfalso.
    clear -Hin Hp Hall. induction Hall as [|q r ps rs Hq _ IH]; [contradiction|].
    destruct Hin as [->|Hin]; [congruence | auto].
Qed.

(** X18: a fixture document that is empty or otherwise false (an empty
    record, an empty list, [null], zero) is reported like a missing file; a
    document that is not a record and is not false makes the loading raise. *)
Theorem falsy_fixture_is_missing (w : world) (p : string) (document : pyval) :
  fixtures w (default "" (fixture_map !! p)) = Some (Ret document) ->
  (truthy document = false ->
   mock_result w p
   = Ret (failed_result w p
            ("Fixture not found: " +:+ default "unknown" (fixture_map !! p))))
  /\ (truthy document = true -> is_dict document = false ->
      mock_result w p
      = Raise (Exc "AttributeError"
                   ("'" +:+ type_name document +:+ "' object has no attribute 'get'"))).
Proof.
  intros Hdoc. unfold mock_result, load_fixture. rewrite Hdoc. cbn [bind]. split.
  - now intros ->.
  - intros -> Hd. destruct document; try discriminate Hd; reflexivity.
Qed.

Lemma falsy_fixture_is_missing_witness :
  mock_result empty_fixture_world "openai"
  = Ret (failed_result empty_fixture_world "openai"
           "Fixture not found: openai_sample.json").
Proof.
  exact (proj1 (falsy_fixture_is_missing empty_fixture_world "openai" (PDict [])
                  eq_refl) eq_refl).
Defined.

(** *** Runs of [main] *)

Lemma main_live_shape (w : world) (a : args) (t : string) :
  topic a = Some t -> t <> "" -> mock a = false ->
  let available :=
    Env.get_available_providers (Env.get_config (environ w) (central_env w)) in
  available <> [] ->
  main w a
  = Run (match snd (as_completed available (completions w) (timeout a)) with
         | Some e => Raise e
         | None =>
             Ret (sort_results
                    (map (collect_one w t (map (fun q => (q, key_for w q)) available))
                         (fst (as_completed available (completions w) (timeout a)))))
         end)
        available.
Proof.
  intros Ht Hne Hmock available Hav.
  unfold main. rewrite Ht, Hmock.
  apply String.eqb_neq in Hne. rewrite Hne. fold available.
  assert (Htruthy : truthy (PList (map PStr available)) = true)
    by (destruct available; [contradiction | reflexivity]).
  rewrite Htruthy. cbn [negb andb]. unfold collect_live.
  rewrite (DeepResearchFacts.dispatch_canonical w available [])
    by (intros q Hq;
        now apply (DeepResearchFacts.available_canonical
                     (Env.get_config (environ w) (central_env w)) q)).
  cbn [List.app]. rewrite List.map_map. cbn [fst]. rewrite List.map_id.
  destruct (as_completed available (completions w) (timeout a)) as [yielded [e|]];
    reflexivity.
Qed.

(** X19: [main] ends with exit status 1, before any call is submitted, when
    the topic is missing or empty, whatever the mode; and a live run with a
    topic ends with exit status 1 exactly when no provider key is
    configured. *)
Theorem main_exits_without_topic_or_keys (w : world) (a : args) :
  (topic a = None \/ topic a = Some "" ->
   main w a = Run (Raise (SystemExit "1")) [])
  /\ (forall t, topic a = Some t -> t <> "" -> mock a = false ->
        (outcome (main w a) = Raise (SystemExit "1")
         <-> Env.get_available_providers
               (Env.get_config (environ w) (central_env w)) = [])
        /\ (Env.get_available_providers
              (Env.get_config (environ w) (central_env w)) = [] ->
            submitted (main w a) = [])).
Proof.
  split.
  - intros [H|H]; unfold main; rewrite H; reflexivity.
  - intros t Ht Hne Hmock.
    assert (Hempty : Env.get_available_providers
                       (Env.get_config (environ w) (central_env w)) = [] ->
                     main w a = Run (Raise (SystemExit "1")) []).
    { intros Hav. unfold main. rewrite Ht, Hmock, Hav.
      apply String.eqb_neq in Hne. now rewrite Hne. }
    split; [split|].
    + intros Hout.
      destruct (Env.get_available_providers
                  (Env.get_config (environ w) (central_env w))) as [|p rest] eqn:Hav;
        [reflexivity|]. exfalso.
      assert (Hne' : Env.get_available_providers
                       (Env.get_config (environ w) (central_env w)) <> [])
        by (rewrite Hav; discriminate).
      rewrite (main_live_shape w a t Ht Hne Hmock Hne') in Hout. cbn [outcome] in Hout.
      unfold as_completed in Hout. cbn [snd] in Hout.
      destruct (List.filter _ _) in Hout; discriminate.
    + intros Hav. now rewrite (Hempty Hav).
    + intros Hav. now rewrite (Hempty Hav).
Qed.

Lemma as_completed_returns (names : list string) (done : list (string * Z))
    (timeout : Z) :
  snd (as_completed names done timeout) = None
  <-> (forall p, List.In p names ->
                 exists s, List.In (p, s) done /\ (s <= timeout)%Z).
Proof.
  unfold as_completed. cbn [snd].
  set (yielded := map fst (List.filter _ done)).
  assert (Hy : forall p, List.In p names ->
            (List.In p yielded <-> exists s, List.In (p, s) done /\ (s <= timeout)%Z)).
  { intros p Hp. subst yielded. rewrite List.in_map_iff. split.
    - intros ([q s] & Hq & Hin). cbn in Hq. subst q.
      apply List.filter_In in Hin as [Hin Hk]. cbn in Hk.
      apply andb_true_iff in Hk as [_ Hk]. apply Z.leb_le in Hk. eauto.
    - intros (s & Hin & Hle). exists (p, s). split; [reflexivity|].
      apply List.filter_In. split; [exact Hin|]. cbn.
      apply andb_true_iff. split; [now apply DeepResearchFacts.mem_In|].
      now apply Z.leb_le. }
  split.
  - intros Hnone p Hp. apply Hy; [exact Hp|].
    destruct (List.filter (fun q => negb (mem q yielded)) names) as [|q pending] eqn:Hpend;
      [|discriminate].
    destruct (mem p yielded) eqn:Hm; [now apply DeepResearchFacts.mem_In in Hm|].
    exfalso. assert (Hin : List.In p (List.filter (fun q => negb (mem q yielded)) names)).
    { apply List.filter_In. split; [exact Hp|]. now rewrite Hm. }
    rewrite Hpend in Hin. contradiction.
  - intros Hall. rewrite DeepResearchFacts.filter_none; [reflexivity|].
    intros p Hp. apply negb_false_iff, DeepResearchFacts.mem_In, Hy; auto.
Qed.

(** X20: a live run with a topic and at least one active provider returns a
    result list exactly when every active provider finishes within the
    timeout; otherwise it ends with the [TimeoutError] of the iteration. *)
Theorem live_run_returns_iff_in_time (w : world) (a : args) (t : string) :
  topic a = Some t -> t <> "" -> mock a = false ->
  let available :=
    Env.get_available_providers (Env.get_config (environ w) (central_env w)) in
  available <> [] ->
  (is_ret (outcome (main w a)) = true
   <-> forall p, List.In p available ->
                 exists s, List.In (p, s) (completions w) /\ (s <= timeout a)%Z)
  /\ (is_ret (outcome (main w a)) = false ->
      exists msg, outcome (main w a) = Raise (Exc "TimeoutError" msg)).
Proof.
  intros Ht Hne Hmock available Hav.
  rewrite (main_live_shape w a t Ht Hne Hmock Hav). cbn [outcome]. fold available.
  pose proof (as_completed_returns available (completions w) (timeout a)) as Hiff.
  destruct (snd (as_completed available (completions w) (timeout a))) as [e|] eqn:Hsnd.
  - split.
    + split; [discriminate|]. intros Hall. apply Hiff in Hall. discriminate.
    + intros _. unfold as_completed in Hsnd. cbn [snd] in Hsnd.
      destruct (List.filter _ available) in Hsnd; [discriminate|].
      injection Hsnd as <-. eexists. reflexivity.
  - split; [|discriminate]. split; [intros _; now apply Hiff | reflexivity].
Qed.

Lemma live_run_returns_iff_in_time_witness :
  is_ret (outcome (main slow_perplexity_world live_args)) = false
  /\ exists msg,
       outcome (main slow_perplexity_world live_args) = Raise (Exc "TimeoutError" msg).
Proof.
  destruct (live_run_returns_iff_in_time slow_perplexity_world live_args "topic"
              eq_refl ltac:(discriminate) eq_refl ltac:(discriminate)) as (_ & H).
  split; [reflexivity | exact (H eq_refl)].
Defined.

(** *** The sort *)

Lemma insert_sorted_perm (x : ProviderResult) (l : list ProviderResult) :
  Permutation (insert_sorted x l) (x :: l).
Proof.
  induction l as [|y l IH]; [reflexivity|]. cbn [insert_sorted].
  destruct (Nat.leb (sort_key x) (sort_key y)); [reflexivity|].
  transitivity (y :: x :: l); [now constructor | apply perm_swap].
Qed.

Lemma insert_sorted_keeps_order (x : ProviderResult) (l : list ProviderResult) :
  StronglySorted (fun r1 r2 => sort_key r1 <= sort_key r2) l ->
  StronglySorted (fun r1 r2 => sort_key r1 <= sort_key r2) (insert_sorted x l).
Proof.
  induction l as [|y l IH]; intros Hl; [repeat constructor|].
  apply StronglySorted_inv in Hl as [Hl' Hy]. cbn [insert_sorted].
  destruct (Nat.leb_spec (sort_key x) (sort_key y)) as [Hle|Hgt].
  - constructor; [now constructor|]. constructor; [exact Hle|].
    rewrite List.Forall_forall in *. intros z Hz. specialize (Hy z Hz). lia.
  - constructor; [now apply IH|].
    rewrite List.Forall_forall in *. intros z Hz.
    pose proof (Permutation_in z (insert_sorted_perm x l) Hz) as [<-|Hz'];
      [lia | now apply Hy].
Qed.

Lemma insert_sorted_group (k : nat) (x : ProviderResult) (l : list ProviderResult) :
  with_key k (insert_sorted x l) = with_key k (x :: l).
Proof.
  induction l as [|y l IH]; [reflexivity|]. cbn [insert_sorted].
  destruct (Nat.leb_spec (sort_key x) (sort_key y)) as [Hle|Hgt]; [reflexivity|].
  unfold with_key in *. cbn [List.filter] in *. rewrite IH.
  destruct (Nat.eqb_spec (sort_key y) k) as [Hy|Hy];
    destruct (Nat.eqb_spec (sort_key x) k) as [Hx|Hx]; try reflexivity. lia.
Qed.

Lemma sort_results_sorted_id (l : list ProviderResult) :
  StronglySorted (fun r1 r2 => sort_key r1 <= sort_key r2) l -> sort_results l = l.
Proof.
  induction l as [|x l IH]; intros Hl; [reflexivity|].
  apply StronglySorted_inv in Hl as [Hl' Hx].
  cbn [sort_results fold_right]. fold (sort_results l). rewrite (IH Hl').
  apply DeepResearchFacts.insert_sorted_first. now apply List.Forall_forall.
Qed.

(** X21: the sort of the results rearranges them without adding or losing
    any, puts them in order of their sort keys, keeps the results of equal
    key in the order they had, and changes nothing when applied again. *)
Theorem sort_results_is_a_stable_sort (l : list ProviderResult) :
  Permutation (sort_results l) l
  /\ StronglySorted (fun r1 r2 => sort_key r1 <= sort_key r2) (sort_results l)
  /\ (forall k, with_key k (sort_results l) = with_key k l)
  /\ sort_results (sort_results l) = sort_results l.
Proof.
  assert (Hsorted : StronglySorted (fun r1 r2 => sort_key r1 <= sort_key r2)
                      (sort_results l)).
  { induction l as [|x l IH]; [constructor|].
    cbn [sort_results fold_right]. now apply insert_sorted_keeps_order. }
  split; [|split; [exact Hsorted|split; [|now apply sort_results_sorted_id]]].
  - clear Hsorted. induction l as [|x l IH]; [reflexivity|].
    cbn [sort_results fold_right]. fold (sort_results l).
    transitivity (x :: sort_results l); [apply insert_sorted_perm | now constructor].
  - clear Hsorted. intros k. induction l as [|x l IH]; [reflexivity|].
    cbn [sort_results fold_right]. fold (sort_results l).
    rewrite insert_sorted_group. unfold with_key in *. cbn [List.filter].
    now rewrite IH.
Qed.

(** *** Keys and modes *)

Lemma configured_key (config : gmap string (option string)) (key : string) :
  Env.configured config key = true ->
  exists s, config !! key = Some (Some s) /\ s <> "".
Proof.
  unfold Env.configured. destruct (config !! key) as [[s|]|]; try discriminate.
  intros H. exists s. split; [reflexivity|]. now apply String.eqb_neq, negb_true_iff.
Qed.

(** X22: a live run submits one call for each active provider and for no
    other, in the order of the active set, and every call is handed the key
    of its provider, which is not empty. *)
Theorem live_run_dispatches_configured_keys (w : world) (a : args) (t : string) :
  topic a = Some t -> t <> "" -> mock a = false ->
  let config := Env.get_config (environ w) (central_env w) in
  submitted (main w a) = Env.get_available_providers config
  /\ (forall p key,
        List.In p (Env.get_available_providers config) ->
        PROVIDER_KEY_MAP !! p = Some key ->
        exists s, config !! key = Some (Some s) /\ s <> "" /\ key_for w p = Some s).
Proof.
  intros Ht Hne Hmock config. split.
  - destruct (Env.get_available_providers config) as [|p rest] eqn:Hav.
    + unfold main. rewrite Ht, Hmock. fold config. rewrite Hav.
      apply String.eqb_neq in Hne. now rewrite Hne.
    + assert (Hne' : Env.get_available_providers config <> [])
        by (rewrite Hav; discriminate).
      rewrite (main_live_shape w a t Ht Hne Hmock Hne'). cbn [submitted].
      fold config. exact Hav.
  - intros p key Hp Hkey.
    destruct (EnvFacts.available_iff_configured config) as (Ho & Hx & Hg).
    assert (Hconf : Env.configured config key = true).
    { destruct (EnvFacts.key_map_cases p key Hkey) as [[-> ->]|[[-> ->]|[-> ->]]];
        [now apply Ho | now apply Hx | now apply Hg]. }
    destruct (configured_key config key Hconf) as (s & Hs & Hnes).
    exists s. split; [exact Hs|]. split; [exact Hnes|].
    unfold key_for, api_key_of. fold config. now rewrite Hkey, Hs.
Qed.

Lemma live_run_dispatches_configured_keys_witness :
  submitted (main isolation_world live_args) = ["openai"; "perplexity"; "gemini"].
Proof.
  rewrite (proj1 (live_run_dispatches_configured_keys isolation_world live_args "topic"
                    eq_refl ltac:(discriminate) eq_refl)).
  reflexivity.
Defined.

(** X23: a mock run does not look at the credentials or at the timeout: its
    result is the same for every environment, key file and timeout, and when
    it returns, it returns the results of openai, perplexity and gemini in
    that order, whatever the fixtures hold. *)
Theorem mock_run_ignores_credentials (w : world) (a : args) (t : string) :
  topic a = Some t -> t <> "" -> mock a = true ->
  (forall env file seconds,
     main (World env file (fixtures w) (openai_dr w) (perplexity_dr w)
                 (gemini_net w) (repr w) (elapsed w) (completions w) (defaults w))
          (Args (topic a) true seconds)
     = main w a)
  /\ (forall rs, outcome (main w a) = Ret rs ->
        map provider rs = ["openai"; "perplexity"; "gemini"]).
Proof.
  intros Ht Hne Hmock. apply String.eqb_neq in Hne. split.
  - intros env file seconds. unfold main. cbn [topic mock]. rewrite Ht, Hmock, Hne.
    reflexivity.
  - unfold main. rewrite Ht, Hmock, Hne. cbn [map truthy negb andb outcome].
    intros rs Hrs.
    destruct (run_mock w ["openai"; "perplexity"; "gemini"]) as [collected|] eqn:Hmockrun;
      [|discriminate].
    cbn [bind] in Hrs. injection Hrs as <-.
    destruct (run_mock_providers w _ collected Hmockrun) as (Hprov & _).
    destruct collected as [|r1 [|r2 [|r3 [|r4 rest]]]]; try discriminate Hprov.
    injection Hprov as H1 H2 H3.
    rewrite (DeepResearchFacts.sort_canonical_triple r1 r2 r3 H1 H2 H3).
    cbn [map]. now rewrite H1, H2, H3.
Qed.

Lemma mock_run_ignores_credentials_witness :
  main (World (list_to_map three_keys) ∅ (fixtures slow_gemini_world)
              (openai_dr slow_gemini_world) (perplexity_dr slow_gemini_world)
              (gemini_net slow_gemini_world) (repr slow_gemini_world)
              (elapsed slow_gemini_world) (completions slow_gemini_world)
              (defaults slow_gemini_world))
       (Args (Some "topic") true 5)
  = main slow_gemini_world mock_args.
Proof.
  exact (proj1 (mock_run_ignores_credentials slow_gemini_world mock_args "topic"
                  eq_refl ltac:(discriminate) eq_refl)
               (list_to_map three_keys) ∅ 5%Z).
Defined.

End DeepResearchMore.

(** ** The order of the outcomes *)

Module OrderFacts.

Import DeepResearch Samples.

(** The providers of a run: the three of the mock mode, or the active set. *)
Lemma main_returns_active (w : world) (a : args) (rs : list ProviderResult) :
  List.NoDup (map fst (completions w)) ->
  outcome (main w a) = Ret rs ->
  map provider rs
  = if mock a then canonical
    else Env.get_available_providers (Env.get_config (environ w) (central_env w)).
Proof.
  intros Hnd Hrs.
  destruct (topic a) as [t|] eqn:Ht; [|unfold main in Hrs; now rewrite Ht in Hrs].
  destruct (String.eqb_spec t "") as [->|Hne];
    [unfold main in Hrs; now rewrite Ht in Hrs|].
  destruct (mock a) eqn:Hmock.
  - unfold main in Hrs. rewrite Ht, Hmock in Hrs.
    apply String.eqb_neq in Hne. rewrite Hne in Hrs.
    cbn [map truthy negb andb outcome] in Hrs.
    destruct (run_mock w ["openai"; "perplexity"; "gemini"]) as [collected|] eqn:Hrun;
      [|discriminate].
    cbn [bind] in Hrs. injection Hrs as <-.
    destruct (DeepResearchMore.run_mock_providers w _ collected Hrun) as (Hprov & _).
    destruct collected as [|r1 [|r2 [|r3 [|r4 rest]]]]; try discriminate Hprov.
    injection Hprov as H1 H2 H3.
    rewrite (DeepResearchFacts.sort_canonical_triple r1 r2 r3 H1 H2 H3).
    cbn [map]. now rewrite H1, H2, H3.
  - set (available :=
           Env.get_available_providers (Env.get_config (environ w) (central_env w))).
    destruct available as [|p0 rest0] eqn:Hav.
    { unfold main in Hrs. rewrite Ht, Hmock in Hrs.
      apply String.eqb_neq in Hne. rewrite Hne in Hrs.
      fold available in Hrs. rewrite Hav in Hrs. discriminate. }
    assert (Hsome : Env.get_available_providers
                      (Env.get_config (environ w) (central_env w)) <> [])
      by (fold available; rewrite Hav; discriminate).
    assert (Hin : forall p, List.In p available ->
              exists s, List.In (p, s) (completions w) /\ (s <= timeout a)%Z).
    { apply DeepResearchMore.as_completed_returns.
      rewrite (DeepResearchMore.main_live_shape w a t Ht Hne Hmock Hsome) in Hrs.
      cbn [outcome] in Hrs. fold available in Hrs.
      destruct (snd (as_completed available (completions w) (timeout a)));
        [discriminate | reflexivity]. }
    rewrite (DeepResearchFacts.main_live_in_time w a t Ht Hne Hmock Hsome Hnd Hin) in Hrs.
    cbn [outcome] in Hrs. injection Hrs as <-. fold available.
    rewrite <- Hav. rewrite List.map_map.
    transitivity (map (fun p : string => p) available); [|apply List.map_id].
    apply List.map_ext_in. intros p Hp.
    apply DeepResearchFacts.collect_one_canonical; [exact Hp|].
    now apply (DeepResearchFacts.available_canonical
                 (Env.get_config (environ w) (central_env w)) p).
Qed.

Lemma available_sublist (config : gmap string (option string)) :
  sublist (Env.get_available_providers config) canonical.
Proof.
  unfold Env.get_available_providers, canonical.
  destruct (Env.configured _ "OPENAI_API_KEY"), (Env.configured _ "PERPLEXITY_API_KEY"),
           (Env.configured _ "GEMINI_API_KEY"); cbn;
    repeat first [apply sublist_nil | apply sublist_skip | apply sublist_cons].
Qed.

Lemma inside_no_outsider (l : list ProviderResult) :
  (forall r, List.In r l -> List.In (provider r) canonical) ->
  List.filter outside l = [].
Proof.
  intros H. apply DeepResearchFacts.filter_none. intros r Hr. unfold outside.
  apply negb_false_iff, DeepResearchFacts.mem_In, H, Hr.
Qed.

(** C4: the outcomes that [main] returns are those of the providers of the
    run, the three of the mock mode or the active set, in the order of the
    canonical list, of which these are a sublist; none of them is of a
    provider outside the canonical list.  The order depends on nothing but
    the active set: another run with the same environment and key file, in
    which the calls finish at other times and in another order, returns the
    outcomes of the same providers in the same order.  And the sort itself
    gives, for every rearrangement of collected outcomes of distinct
    canonical providers, the same list: openai, then perplexity, then
    gemini. *)
Theorem outcome_order_is_canonical (w : world) (a : args) (rs : list ProviderResult) :
  List.NoDup (map fst (completions w)) ->
  outcome (main w a) = Ret rs ->
  let active :=
    if mock a then canonical
    else Env.get_available_providers (Env.get_config (environ w) (central_env w)) in
  map provider rs = active
  /\ sublist active canonical
  /\ (forall r, List.In r rs -> List.In (provider r) canonical /\ outside r = false)
  /\ (forall w' rs',
        environ w' = environ w -> central_env w' = central_env w ->
        List.NoDup (map fst (completions w')) ->
        outcome (main w' a) = Ret rs' ->
        map provider rs' = map provider rs)
  /\ (forall l1 l2,
        Permutation l1 l2 ->
        List.NoDup (map provider l1) ->
        (forall r, List.In r l1 -> List.In (provider r) canonical) ->
        sort_results l1 = sort_results l2
        /\ sort_results l1
           = List.filter (fun r => String.eqb (provider r) "openai") l1
             ++ List.filter (fun r => String.eqb (provider r) "perplexity") l1
             ++ List.filter (fun r => String.eqb (provider r) "gemini") l1).
Proof.
  intros Hnd Hrs active.
  pose proof (main_returns_active w a rs Hnd Hrs) as Hactive. fold active in Hactive.
  assert (Hsub : sublist active canonical).
  { subst active. destruct (mock a); [reflexivity | apply available_sublist]. }
  split; [exact Hactive|]. split; [exact Hsub|]. split; [|split].
  - intros r Hr.
    assert (Hcan : List.In (provider r) canonical).
    { apply list_elem_of_In. refine (elem_of_sublist _ _ _ _ Hsub).
      apply list_elem_of_In. rewrite <- Hactive. now apply List.in_map. }
    split; [exact Hcan|]. unfold outside.
    now apply negb_false_iff, DeepResearchFacts.mem_In.
  - intros w' rs' Henv Hfile Hnd' Hrs'.
    rewrite (main_returns_active w' a rs' Hnd' Hrs'), Henv, Hfile.
    now rewrite Hactive.
  - intros l1 l2 Hperm Hdistinct Hinside.
    assert (Hout1 : List.filter outside l1 = []) by now apply inside_no_outsider.
    assert (Hout2 : List.filter outside l2 = []).
    { apply inside_no_outsider. intros r Hr. apply Hinside.
      now apply (Permutation_in _ (Permutation_sym Hperm)). }
    destruct (DeepResearchFacts.sort_results_of_permutation l1 l2 Hperm Hdistinct)
      as (Hsame & Hgroups); [now rewrite Hout1, Hout2|].
    split; [exact Hsame|]. rewrite Hgroups, Hout1. now rewrite !List.app_nil_r.
Qed.

Lemma outcome_order_is_canonical_witness :
  exists rs,
    outcome (main isolation_world live_args) = Ret rs
    /\ map provider rs = ["openai"; "perplexity"; "gemini"].
Proof.
  assert (Hnd : List.NoDup (map fst (completions isolation_world)))
    by (cbn; DeepResearchFacts.nodup_strings).
  assert (Hin : forall p,
            List.In p ["openai"; "perplexity"; "gemini"] ->
            exists s, List.In (p, s) (completions isolation_world) /\ (s <= 600)%Z).
  { intros p [<-|[<-|[<-|[]]]]; eexists; (split; [cbn; eauto|lia]). }
  pose proof (DeepResearchFacts.main_live_in_time isolation_world live_args "topic"
                eq_refl ltac:(discriminate) eq_refl ltac:(discriminate) Hnd Hin) as Hmain.
  eexists. split; [rewrite Hmain; reflexivity|].
  exact (proj1 (outcome_order_is_canonical isolation_world live_args _ Hnd
                  (f_equal outcome Hmain))).
Defined.

End OrderFacts.
